(** * The hike storage service of [src/lib/database.ts]

    A shallow embedding of the persistence layer of the hike logging
    application: the fallback store emulating SQL statements over a list of
    rows ([createMockDatabase]), the storage service that binds a backend and
    runs every statement through [executeTransaction] ([DatabaseService]),
    and the exported wrappers the screens call. The last part embeds the
    validation of the hike form ([validateField], [validateForm] and
    [handleSubmit] of the form component).

    Conventions of the embedding.
    - A JavaScript value that can sit in a row field or in a statement
      parameter is a [value]: [undefined], [null] or a string.
    - Strings are byte strings; the SQL texts of the service are ASCII, and
      [trim] and [toUpperCase] are modelled on ASCII.
    - The asynchronous calls are run to completion: a call takes the state of
      the service and of its surroundings and returns its result with the
      next state.
    - The platform's date parser ([new Date(s).getTime()]) and the native SQL
      engine are not code of this repository; the development is parametric
      in both (the classes [DateParser] and [NativeEngine]), and [Iso.parse]
      and the engines of [Engines] are concrete instances for the
      examples. *)

From Stdlib Require Import ZArith Ascii String Lia.
From stdpp Require Import base option strings list sorting.

Local Open Scope string_scope.
Local Open Scope Z_scope.
Local Open Scope list_scope.

(** ** JavaScript values *)

Inductive value : Type :=
  | VUndefined
  | VNull
  | VString (s : string).

Global Instance value_eq_dec : EqDecision value.
Proof. solve_decision. Defined.

(** [a === b] on the values of the model. *)
Definition strict_eq (a b : value) : bool := bool_decide (a = b).

(** Truthiness: [undefined], [null] and the empty string are falsy. *)
Definition truthy (v : value) : bool :=
  match v with
  | VString s => negb (String.eqb s "")
  | _ => false
  end.

(** [v || ''] *)
Definition or_empty (v : value) : value :=
  if truthy v then v else VString "".

(** [arr[i]] on a parameter array: out of range reads [undefined]. *)
Definition at_index (params : list value) (i : nat) : value :=
  default VUndefined (params !! i).

(** [params[params.length - 1]]: index [-1] of an empty array is
    [undefined]. *)
Definition at_last (params : list value) : value :=
  match params with
  | [] => VUndefined
  | _ => at_index params (length params - 1)%nat
  end.

(** ** String primitives used on the statement text *)

Module Str.

Definition is_space (c : ascii) : bool :=
  let n := nat_of_ascii c in
  ((9 <=? n) && (n <=? 13))%nat || (n =? 32)%nat.

Fixpoint trimStart (s : string) : string :=
  match s with
  | String c s' => if is_space c then trimStart s' else s
  | EmptyString => EmptyString
  end.

(** Drops trailing white space: a white-space character is kept only when
    something is kept after it. *)
Fixpoint trimEnd (s : string) : string :=
  match s with
  | EmptyString => EmptyString
  | String c s' =>
      match trimEnd s' with
      | EmptyString => if is_space c then EmptyString else String c EmptyString
      | t => String c t
      end
  end.

Definition trim (s : string) : string := trimEnd (trimStart s).

Definition upper (c : ascii) : ascii :=
  let n := nat_of_ascii c in
  if ((97 <=? n) && (n <=? 122))%nat then ascii_of_nat (n - 32) else c.

Fixpoint toUpperCase (s : string) : string :=
  match s with
  | EmptyString => EmptyString
  | String c s' => String (upper c) (toUpperCase s')
  end.

(** [s.startsWith(p)] *)
Definition startsWith (s p : string) : bool := String.prefix p s.

End Str.

(** ** A concrete date parser for the examples

    [Iso.parse] reads the two shapes of the ECMAScript date-time string
    format that occur in the application: the date-only form [YYYY-MM-DD]
    (UTC midnight) and the form written by [toISOString],
    [YYYY-MM-DDTHH:mm:ss.sssZ]. It answers the milliseconds since the epoch,
    and [None] (an invalid date, whose time is [NaN]) on every other
    string. *)
Module Iso.

Definition digit (c : ascii) : option Z :=
  let n := Z.of_nat (nat_of_ascii c) in
  if (48 <=? n) && (n <=? 57) then Some (n - 48) else None.

(** Reads exactly [n] decimal digits. *)
Fixpoint number (n : nat) (acc : Z) (s : string) : option (Z * string) :=
  match n with
  | O => Some (acc, s)
  | S n' =>
      match s with
      | String c s' =>
          match digit c with
          | Some d => number n' (10 * acc + d) s'
          | None => None
          end
      | EmptyString => None
      end
  end.

Definition expect (c : ascii) (s : string) : option string :=
  match s with
  | String c' s' => if Ascii.eqb c c' then Some s' else None
  | EmptyString => None
  end.

Definition leap (y : Z) : bool :=
  ((y mod 4 =? 0) && negb (y mod 100 =? 0)) || (y mod 400 =? 0).

Definition days_in_month (y m : Z) : Z :=
  if m =? 2 then (if leap y then 29 else 28)
  else if (m =? 4) || (m =? 6) || (m =? 9) || (m =? 11) then 30
  else 31.

(** Days from 1970-01-01 to the given civil date (proleptic Gregorian). *)
Definition days_from_civil (y m d : Z) : Z :=
  let y' := if m <=? 2 then y - 1 else y in
  let era := y' / 400 in
  let yoe := y' - era * 400 in
  let mp := (m + 9) mod 12 in
  let doy := (153 * mp + 2) / 5 + d - 1 in
  let doe := yoe * 365 + yoe / 4 - yoe / 100 + doy in
  era * 146097 + doe - 719468.

Definition time_of_day (s : string) : option Z :=
  match s with
  | EmptyString => Some 0
  | _ =>
      s ← expect "T" s;
      '(h, s) ← number 2 0 s;
      s ← expect ":" s;
      '(mi, s) ← number 2 0 s;
      s ← expect ":" s;
      '(sec, s) ← number 2 0 s;
      s ← expect "." s;
      '(ms, s) ← number 3 0 s;
      s ← expect "Z" s;
      if String.eqb s "" && (h <=? 23) && (mi <=? 59) && (sec <=? 59)
      then Some (((h * 60 + mi) * 60 + sec) * 1000 + ms)
      else None
  end.

Definition parse (s : string) : option Z :=
  '(y, s) ← number 4 0 s;
  s ← expect "-" s;
  '(m, s) ← number 2 0 s;
  s ← expect "-" s;
  '(d, s) ← number 2 0 s;
  if (1 <=? m) && (m <=? 12) && (1 <=? d) && (d <=? days_in_month y m)
  then t ← time_of_day s; Some (days_from_civil y m d * 86400000 + t)
  else None.

End Iso.

(** ** Hike records *)

Module Hike.
(** A stored row, and also the argument of [addHike] and [updateHike]: a
    field that the caller left out reads [undefined]. *)
Record t : Type := mk {
  id : value;
  name : value;
  location : value;
  date : value;
  parking : value;
  length : value;
  difficulty : value;
  description : value;
  weather : value;
  rating : value;
  companions : value;
  createdAt : value;
}.
End Hike.

Abbreviation hike := Hike.t.

Global Instance hike_eq_dec : EqDecision hike.
Proof. solve_decision. Defined.

(** An element of a result set: a row of the table, or the synthetic object
    [{ count }] of the counting statement. *)
Inductive record : Type :=
  | HikeRecord (h : hike)
  | CountRecord (count : nat).

(** ** Numbers, dates and [Array.prototype.sort] *)

(** The numbers the comparator works on: an integer or [NaN] ([None]). *)
Definition number : Type := option Z.

Definition minus (a b : number) : number :=
  match a, b with
  | Some x, Some y => Some (x - y)
  | _, _ => None
  end.

(** The platform's [Date.parse]: the time value of a string, [None] when
    the string is no date. *)
Class DateParser : Type := Date_parse : string → option Z.

(** [new Date(v).getTime()]: a string is parsed, [null] converts to the
    number 0 and [undefined] to [NaN]. *)
Definition getTime {dates : DateParser} (v : value) : number :=
  match v with
  | VString s => Date_parse s
  | VNull => Some 0
  | VUndefined => None
  end.

Module Array.
Section sort.
Context {A : Type} (comparefn : A → A → number).

(** The comparison of the sort: a [NaN] answer of [comparefn] counts
    as [+0]. *)
Definition SortCompare (x y : A) : Z := default 0 (comparefn x y).

(** [x] stood before the elements of [l]; it moves behind [y] only when
    the comparison says that [y] comes first. *)
Fixpoint insert (x : A) (l : list A) : list A :=
  match l with
  | [] => [x]
  | y :: l' =>
      if 0 <? SortCompare x y then y :: insert x l' else x :: l
  end.

(** The sort is stable (ECMAScript 2019); for a consistent comparator
    every stable sort returns this list. *)
Definition sort (l : list A) : list A := foldr insert [] l.
End sort.
End Array.

(** ** The fallback store ([createMockDatabase]) *)

(** What the key [mhike_hikes_v1] of [window.localStorage] holds, told apart
    by what [JSON.parse] makes of it: nothing, a text that [JSON.parse]
    rejects, or the serialization of a list of rows (what [writeAll] writes;
    serializing and parsing a list of rows gives the list back). A text that
    parses to something other than a list is outside the model. *)
Inductive stored : Type :=
  | NoItem
  | Unparseable (raw : string)
  | Serialized (rows : list hike).

(** The reply of a backend to one statement: which callback runs, and with
    what. *)
Inductive reply : Type :=
  | OnSuccess (rows : list record)
  | OnError (message : string)
  | OnTransactionError (message : string).

(** The closure of one [createMockDatabase()] call. *)
Record mock : Type := {
  hasLocalStorage : bool;
  memoryRows : list hike;
}.

(** The store a statement works on: the closure and the storage facility
    of the window ([None] when there is none). *)
Definition store : Type := mock * option stored.

Definition createMockDatabase (localStorage : option stored) : mock :=
  {| hasLocalStorage := bool_decide (is_Some localStorage);
     memoryRows := [] |}.

Definition readAll (st : store) : list hike :=
  let '(m, localStorage) := st in
  if hasLocalStorage m then
    match localStorage with
    | Some NoItem => []
    | Some (Serialized rows) => rows
    | Some (Unparseable _) => []       (* JSON.parse throws: caught *)
    | None => []                       (* no facility to read: caught *)
    end
  else memoryRows m.

Definition writeAll (rows : list hike) (st : store) : store :=
  let '(m, localStorage) := st in
  if hasLocalStorage m then
    match localStorage with
    | Some _ => (m, Some (Serialized rows))
    | None => (m, None)                (* no facility to write: caught *)
    end
  else ({| hasLocalStorage := hasLocalStorage m; memoryRows := rows |},
        localStorage).

(** [createResultRows(arr)]: the array itself stands for the result set
    ([_array]; [length] and [item] are read off it). *)
Definition createResultRows (arr : list record) : list record := arr.

(** The comparator of the select branch:
    [new Date(b.date).getTime() - new Date(a.date).getTime()]. *)
Definition byDateDesc {dates : DateParser} (a b : hike) : number :=
  minus (getTime (Hike.date b)) (getTime (Hike.date a)).

(** [tx.executeSql(sql, params, success, error)] of the fallback store: the
    branches in the order of the source; the first that matches answers. *)
Definition executeSql {dates : DateParser}
    (sql : string) (params : list value) (st : store) : reply * store :=
  let normalized := Str.toUpperCase (Str.trim sql) in
  if Str.startsWith normalized "INSERT INTO HIKES" then
    let rows := readAll st in
    let row :=
      Hike.mk (at_index params 0) (at_index params 1) (at_index params 2)
              (at_index params 3) (at_index params 4) (at_index params 5)
              (at_index params 6) (at_index params 7) (at_index params 8)
              (at_index params 9) (at_index params 10) (at_index params 11) in
    (OnSuccess (createResultRows []), writeAll (rows ++ [row]) st)
  else if Str.startsWith normalized "SELECT * FROM HIKES" then
    let rows := readAll st in
    let rows := Array.sort byDateDesc rows in
    (OnSuccess (createResultRows (HikeRecord <$> rows)), st)
  else if Str.startsWith normalized "DELETE FROM HIKES WHERE ID" then
    let rows := readAll st in
    let id := at_index params 0 in
    let rows := filter (λ r, Hike.id r ≠ id) rows in
    (OnSuccess (createResultRows []), writeAll rows st)
  else if String.eqb normalized "DELETE FROM HIKES" then
    (OnSuccess (createResultRows []), writeAll [] st)
  else if Str.startsWith normalized "UPDATE HIKES" then
    let rows := readAll st in
    let id := at_last params in
    let rows :=
      (λ r, if strict_eq (Hike.id r) id then
              {| Hike.id := Hike.id r;
                 Hike.name := at_index params 0;
                 Hike.location := at_index params 1;
                 Hike.date := at_index params 2;
                 Hike.parking := at_index params 3;
                 Hike.length := at_index params 4;
                 Hike.difficulty := at_index params 5;
                 Hike.description := at_index params 6;
                 Hike.weather := at_index params 7;
                 Hike.rating := at_index params 8;
                 Hike.companions := at_index params 9;
                 Hike.createdAt := at_index params 10 |}
            else r) <$> rows in
    (OnSuccess (createResultRows []), writeAll rows st)
  else if Str.startsWith normalized "SELECT COUNT(*)" then
    let rows := readAll st in
    (OnSuccess (createResultRows [CountRecord (length rows)]), st)
  else if Str.startsWith normalized "SELECT * FROM HIKES WHERE ID" then
    let rows := readAll st in
    let id := at_index params 0 in
    let found := filter (λ r, Hike.id r = id) rows in
    (OnSuccess (createResultRows (HikeRecord <$> found)), st)
  else if Str.startsWith normalized "DROP TABLE" then
    (OnSuccess (createResultRows []), writeAll [] st)
  else if Str.startsWith normalized "CREATE TABLE" then
    (OnSuccess (createResultRows []), st)
  else
    (OnSuccess (createResultRows []), st).

(** ** The storage service ([DatabaseService]) *)

(** The native SQL engine behind a handle that has a [transaction]
    function: it answers each statement through one of the callbacks. *)
Class NativeEngine : Type := {
  engine_state : Type;
  engine_run : string → list value → engine_state → reply * engine_state;
}.

(** A handle returned by the SQLite module: it has a [transaction]
    function or lacks it. *)
Record handle : Type := {
  hasTransaction : bool;
}.

(** What [this.db] is bound to: a fallback store, or a handle of the SQLite
    module. *)
Inductive database : Type :=
  | MockDatabase (m : mock)
  | NativeDatabase (h : handle).

(** [typeof db.transaction === 'function'] *)
Definition hasTransactionFn (d : database) : bool :=
  match d with
  | MockDatabase _ => true
  | NativeDatabase h => hasTransaction h
  end.

(** Where a failed result comes from; [error_message] is its text. *)
Inductive failure : Type :=
  | NotInitialized
  | TransactionUnavailable
  | BackendError (message : string).

Definition error_message (f : failure) : string :=
  match f with
  | NotInitialized => "Database not initialized"
  | TransactionUnavailable => "Database transaction function is not available"
  | BackendError message => message
  end.

(** [DatabaseResult]: [{ success: true, data }] or
    [{ success: false, error }]. *)
Inductive DatabaseResult (D : Type) : Type :=
  | Success (data : D)
  | Failure (error : failure).
Global Arguments Success {D} data.
Global Arguments Failure {D} error.

Definition success {D} (r : DatabaseResult D) : bool :=
  match r with
  | Success _ => true
  | Failure _ => false
  end.

(** The service and what surrounds it. [issued] is a ghost log: the
    statements submitted to the transaction of a backend, oldest first. *)
Record state {native : NativeEngine} : Type := {
  db : option database;
  isInitialized : bool;
  localStorage : option stored;
  engine : engine_state;
  issued : list (string * list value);
}.

(** What one of the two entry points of the SQLite module does when it is
    called: it throws, or returns a handle ([None]: a falsy value). *)
Inductive opening : Type :=
  | Throws
  | Returns (dbInstance : option handle).

(** The SQLite module: for each entry point, [None] when it is not a
    function. *)
Record SQLiteModule : Type := {
  openDatabase : option opening;
  openDatabaseSync : option opening;
}.

(** The runtime the service is constructed in: [Platform.OS] and the
    SQLite module ([None]: a falsy module object). *)
Record runtime : Type := {
  OS : string;
  SQLite : option SQLiteModule;
}.

Section service.
Context {dates : DateParser} {native : NativeEngine}.

Definition bind_db (d : database) (s : state) : state :=
  {| db := Some d; isInitialized := isInitialized s;
     localStorage := localStorage s; engine := engine s;
     issued := issued s |}.

Definition initialized (s : state) : state :=
  {| db := db s; isInitialized := true;
     localStorage := localStorage s; engine := engine s;
     issued := issued s |}.

Definition log_statement (sql : string) (params : list value) (s : state)
    : state :=
  {| db := db s; isInitialized := isInitialized s;
     localStorage := localStorage s; engine := engine s;
     issued := issued s ++ [(sql, params)] |}.

(** The open attempt of [initializeDatabase], inside its own [try]:
    [openDatabase] when it is a function, else [openDatabaseSync] when
    that is one; an exception leaves [null]. *)
Definition openAttempt (sqliteAny : option SQLiteModule) : option handle :=
  match sqliteAny with
  | Some sqlite =>
      match openDatabase sqlite with
      | Some (Returns dbInstance) => dbInstance
      | Some Throws => None
      | None =>
          match openDatabaseSync sqlite with
          | Some (Returns dbInstance) => dbInstance
          | Some Throws => None
          | None => None
          end
      end
  | None => None
  end.

(** Nothing in the outer [try] of the source throws in this model; its
    [catch] binds a fallback store and sets the flag like the last case
    below. *)
Definition initializeDatabase (rt : runtime) (s : state) : state :=
  if String.eqb (OS rt) "web" then
    initialized (bind_db (MockDatabase (createMockDatabase (localStorage s))) s)
  else
    match openAttempt (SQLite rt) with
    | Some dbInstance => initialized (bind_db (NativeDatabase dbInstance) s)
    | None =>
        initialized
          (bind_db (MockDatabase (createMockDatabase (localStorage s))) s)
    end.

(** [new DatabaseService()]: the fields start as [null] and [false], and
    the constructor runs [initializeDatabase]. *)
Definition construct (rt : runtime) (localStorage : option stored)
    (engine : engine_state) : state :=
  initializeDatabase rt
    {| db := None; isInitialized := false; localStorage := localStorage;
       engine := engine; issued := [] |}.

(** [db.transaction(tx => tx.executeSql(sql, params, ok, err), txErr)] *)
Definition transaction (d : database) (sql : string) (params : list value)
    (s : state) : reply * state :=
  match d with
  | MockDatabase m =>
      let '(r, (m', localStorage')) :=
        executeSql sql params (m, localStorage s) in
      (r, {| db := Some (MockDatabase m');
             isInitialized := isInitialized s;
             localStorage := localStorage'; engine := engine s;
             issued := issued s |})
  | NativeDatabase _ =>
      let '(r, engine') := engine_run sql params (engine s) in
      (r, {| db := db s; isInitialized := isInitialized s;
             localStorage := localStorage s; engine := engine';
             issued := issued s |})
  end.

Definition executeTransaction (sql : string) (params : list value)
    (operation : string) (s : state)
    : DatabaseResult (list record) * state :=
  match isInitialized s, db s with
  | true, Some d =>
      let '(d, s) :=
        if hasTransactionFn d then (d, s)
        else
          let d' := MockDatabase (createMockDatabase (localStorage s)) in
          (d', bind_db d' s) in
      if negb (hasTransactionFn d) then (Failure TransactionUnavailable, s)
      else
        let '(r, s) := transaction d sql params (log_statement sql params s) in
        match r with
        | OnSuccess rows => (Success rows, s)
        | OnError message => (Failure (BackendError message), s)
        | OnTransactionError message => (Failure (BackendError message), s)
        end
  | _, _ => (Failure NotInitialized, s)
  end.

Definition createTableSQL : string := "
      CREATE TABLE IF NOT EXISTS hikes (
        id TEXT PRIMARY KEY NOT NULL,
        name TEXT NOT NULL,
        location TEXT NOT NULL,
        date TEXT NOT NULL,
        parking TEXT NOT NULL,
        length TEXT NOT NULL,
        difficulty TEXT NOT NULL,
        description TEXT,
        weather TEXT,
        rating TEXT,
        companions TEXT,
        createdAt TEXT NOT NULL
      );
    ".

Definition insertSQL : string := "
      INSERT INTO hikes (id, name, location, date, parking, length, difficulty, description, weather, rating, companions, createdAt)
      VALUES (?, ?, ?, ?, ?, ?, ?, ?, ?, ?, ?, ?)
    ".

Definition selectAllSQL : string := "SELECT * FROM hikes ORDER BY date DESC".

Definition selectByIdSQL : string := "SELECT * FROM hikes WHERE id = ?".

Definition updateSQL : string := "
      UPDATE hikes 
      SET name = ?, location = ?, date = ?, parking = ?, length = ?, difficulty = ?, 
          description = ?, weather = ?, rating = ?, companions = ?
      WHERE id = ?
    ".

Definition deleteSQL : string := "DELETE FROM hikes WHERE id = ?".

Definition deleteAllSQL : string := "DELETE FROM hikes".

Definition dropTableSQL : string := "DROP TABLE IF EXISTS hikes".

Definition countSQL : string := "SELECT COUNT(*) as count FROM hikes".
End service.

(** The methods of the service. The clock reading of [addHike]
    ([new Date().toISOString()]) is the argument [now]. *)
Module DatabaseService.
Section methods.
Context {dates : DateParser} {native : NativeEngine}.

Definition initDatabase (s : state)
    : DatabaseResult (list record) * state :=
  executeTransaction createTableSQL [] "initialization" s.

(** The parameters of the insert statement: every field of the hike
    through [|| ''], the four optional ones once more, and the time
    stamp. *)
Definition addHike_params (hike : hike) (now : string) : list value :=
  let hikeWithDefaults :=
    {| Hike.id := or_empty (Hike.id hike);
       Hike.name := or_empty (Hike.name hike);
       Hike.location := or_empty (Hike.location hike);
       Hike.date := or_empty (Hike.date hike);
       Hike.parking := or_empty (Hike.parking hike);
       Hike.length := or_empty (Hike.length hike);
       Hike.difficulty := or_empty (Hike.difficulty hike);
       Hike.description := or_empty (Hike.description hike);
       Hike.weather := or_empty (Hike.weather hike);
       Hike.rating := or_empty (Hike.rating hike);
       Hike.companions := or_empty (Hike.companions hike);
       Hike.createdAt := VUndefined |} in
  [ Hike.id hikeWithDefaults;
    Hike.name hikeWithDefaults;
    Hike.location hikeWithDefaults;
    Hike.date hikeWithDefaults;
    Hike.parking hikeWithDefaults;
    Hike.length hikeWithDefaults;
    Hike.difficulty hikeWithDefaults;
    or_empty (Hike.description hikeWithDefaults);
    or_empty (Hike.weather hikeWithDefaults);
    or_empty (Hike.rating hikeWithDefaults);
    or_empty (Hike.companions hikeWithDefaults);
    VString now ].

Definition addHike (hike : hike) (now : string) (s : state)
    : DatabaseResult (list record) * state :=
  executeTransaction insertSQL (addHike_params hike now) "add hike" s.

Definition getAllHikes (s : state)
    : DatabaseResult (list record) * state :=
  let '(result, s) := executeTransaction selectAllSQL [] "get all hikes" s in
  match result with
  | Success rows => (Success rows, s)
  | Failure e => (Failure e, s)
  end.

(** [hikes.length > 0 ? hikes[0] : null] *)
Definition getHikeById (id : value) (s : state)
    : DatabaseResult (option record) * state :=
  let '(result, s) :=
    executeTransaction selectByIdSQL [id] "get hike by id" s in
  match result with
  | Success hikes => (Success (head hikes), s)
  | Failure e => (Failure e, s)
  end.

Definition updateHike_params (hike : hike) : list value :=
  [ Hike.name hike;
    Hike.location hike;
    Hike.date hike;
    Hike.parking hike;
    Hike.length hike;
    Hike.difficulty hike;
    Hike.description hike;
    Hike.weather hike;
    Hike.rating hike;
    Hike.companions hike;
    Hike.id hike ].

Definition updateHike (hike : hike) (s : state)
    : DatabaseResult (list record) * state :=
  executeTransaction updateSQL (updateHike_params hike) "update hike" s.

Definition deleteHike (id : value) (s : state)
    : DatabaseResult (list record) * state :=
  executeTransaction deleteSQL [id] "delete hike" s.

Definition deleteAllHikes (s : state)
    : DatabaseResult (list record) * state :=
  executeTransaction deleteAllSQL [] "delete all hikes" s.

Definition resetDatabase (s : state)
    : DatabaseResult (list record) * state :=
  let '(dropResult, s) :=
    executeTransaction dropTableSQL [] "drop table" s in
  if negb (success dropResult) then (dropResult, s)
  else initDatabase s.

(** [rows._array[0]?.count || 0] *)
Definition getDatabaseStats (s : state) : DatabaseResult nat * state :=
  let '(result, s) := executeTransaction countSQL [] "get stats" s in
  match result with
  | Success rows =>
      (Success match rows with
               | CountRecord count :: _ => count
               | _ => 0%nat
               end, s)
  | Failure e => (Failure e, s)
  end.
End methods.
End DatabaseService.

(** ** The exported functions

    They run the method of the singleton service and turn a failed result
    into a rejection that carries the error text. *)

Inductive promise (A : Type) : Type :=
  | Resolved (v : A)
  | Rejected (message : string).
Global Arguments Resolved {A} v.
Global Arguments Rejected {A} message.

Section exported.
Context {dates : DateParser} {native : NativeEngine}.

Definition settle {D A} (f : D → A) (r : DatabaseResult D) : promise A :=
  match r with
  | Success data => Resolved (f data)
  | Failure e => Rejected (error_message e)
  end.

Definition initDatabase (s : state) : promise unit * state :=
  let '(result, s) := DatabaseService.initDatabase s in
  (settle (λ _, tt) result, s).

Definition addHike (hike : hike) (now : string) (s : state)
    : promise unit * state :=
  let hikeWithDefaults :=
    {| Hike.id := or_empty (Hike.id hike);
       Hike.name := or_empty (Hike.name hike);
       Hike.location := or_empty (Hike.location hike);
       Hike.date := or_empty (Hike.date hike);
       Hike.parking := or_empty (Hike.parking hike);
       Hike.length := or_empty (Hike.length hike);
       Hike.difficulty := or_empty (Hike.difficulty hike);
       Hike.description := or_empty (Hike.description hike);
       Hike.weather := or_empty (Hike.weather hike);
       Hike.rating := or_empty (Hike.rating hike);
       Hike.companions := or_empty (Hike.companions hike);
       Hike.createdAt := VUndefined |} in
  let '(result, s) := DatabaseService.addHike hikeWithDefaults now s in
  (settle (λ _, tt) result, s).

Definition getAllHikes (s : state) : promise (list record) * state :=
  let '(result, s) := DatabaseService.getAllHikes s in
  (settle (λ data, data) result, s).

Definition getHikeById (id : value) (s : state)
    : promise (option record) * state :=
  let '(result, s) := DatabaseService.getHikeById id s in
  (settle (λ data, data) result, s).

Definition updateHike (hike : hike) (s : state) : promise unit * state :=
  let '(result, s) := DatabaseService.updateHike hike s in
  (settle (λ _, tt) result, s).

Definition deleteHike (id : value) (s : state) : promise unit * state :=
  let '(result, s) := DatabaseService.deleteHike id s in
  (settle (λ _, tt) result, s).

Definition deleteAllHikes (s : state) : promise unit * state :=
  let '(result, s) := DatabaseService.deleteAllHikes s in
  (settle (λ _, tt) result, s).

Definition resetDatabase (s : state) : promise unit * state :=
  let '(result, s) := DatabaseService.resetDatabase s in
  (settle (λ _, tt) result, s).
End exported.

(** ** Concrete engines for the examples *)
Module Engines.
(** An engine that accepts every statement and returns no rows. *)
Definition quiet : NativeEngine :=
  {| engine_state := unit;
     engine_run := λ _ _ e, (OnSuccess [], e) |}.

(** An engine that refuses every statement it is given. *)
Definition broken : NativeEngine :=
  {| engine_state := unit;
     engine_run := λ _ _ e, (OnError "disk I/O error", e) |}.
End Engines.

(** ** Notions the properties are stated with *)

(** The text the branches of [executeSql] test. *)
Definition normalize (sql : string) : string := Str.toUpperCase (Str.trim sql).

(** What the update branch makes of a row. *)
Definition updated (params : list value) (r : hike) : hike :=
  if strict_eq (Hike.id r) (at_last params) then
    {| Hike.id := Hike.id r;
       Hike.name := at_index params 0;
       Hike.location := at_index params 1;
       Hike.date := at_index params 2;
       Hike.parking := at_index params 3;
       Hike.length := at_index params 4;
       Hike.difficulty := at_index params 5;
       Hike.description := at_index params 6;
       Hike.weather := at_index params 7;
       Hike.rating := at_index params 8;
       Hike.companions := at_index params 9;
       Hike.createdAt := at_index params 10 |}
  else r.

(** The storage facility a closure found at its creation is still there
    (a closure whose facility is gone reads the empty list and writes
    nothing). *)
Definition facility_present (st : store) : Prop :=
  hasLocalStorage st.1 = true → is_Some st.2.

(** Sorting by a key, the larger key first, as the select branch does with
    the time of the date. *)
Section by_key.
Context {A : Type} (key : A → number).

Definition keyDesc (a b : A) : number := minus (key b) (key a).

(** [a] may stand before [b]: both keys are numbers and the key of [a]
    is not the smaller one. *)
Definition not_before (a b : A) : Prop :=
  ∃ ta tb, key a = Some ta ∧ key b = Some tb ∧ tb ≤ ta.

Definition keyed (a : A) : Prop := is_Some (key a).
End by_key.

(** Running a list of statements on the fallback store, one after the
    other. *)
Fixpoint executeAll {dates : DateParser} (stmts : list (string * list value))
    (st : store) : list reply * store :=
  match stmts with
  | [] => ([], st)
  | (sql, params) :: rest =>
      let '(r, st) := executeSql sql params st in
      let '(rs, st) := executeAll rest st in
      (r :: rs, st)
  end.

(** The time of the date of a row, as the comparator of the select branch
    computes it. *)
Definition dateTime {dates : DateParser} (r : hike) : number := getTime (Hike.date r).

(** Two stores that a statement cannot tell apart: the same closure, the
    same rows read, and a storage facility on both sides or on none. *)
Definition same_reading (st1 st2 : store) : Prop :=
  st1.1 = st2.1 ∧ readAll st1 = readAll st2 ∧ (is_Some st1.2 ↔ is_Some st2.2).

(** Sample rows and stores. *)
Module Sample.
Definition snowdon : hike :=
  {| Hike.id := VString "1"; Hike.name := VString "Snowdon";
     Hike.location := VString "Wales"; Hike.date := VString "2024-06-01";
     Hike.parking := VString "Yes"; Hike.length := VString "8.5";
     Hike.difficulty := VString "Hard"; Hike.description := VString "";
     Hike.weather := VString ""; Hike.rating := VString "";
     Hike.companions := VString "";
     Hike.createdAt := VString "2024-06-02T08:00:00.000Z" |}.

Definition benNevis : hike :=
  {| Hike.id := VString "2"; Hike.name := VString "Ben Nevis";
     Hike.location := VString "Scotland"; Hike.date := VString "2024-05-01";
     Hike.parking := VString "No"; Hike.length := VString "17";
     Hike.difficulty := VString "Expert"; Hike.description := VString "";
     Hike.weather := VString "Fog"; Hike.rating := VString "5";
     Hike.companions := VString "";
     Hike.createdAt := VString "2024-06-03T08:00:00.000Z" |}.

(** A second walk on the day of [benNevis]. *)
Definition glenNevis : hike :=
  {| Hike.id := VString "3"; Hike.name := VString "Glen Nevis";
     Hike.location := VString "Scotland"; Hike.date := VString "2024-05-01";
     Hike.parking := VString "Yes"; Hike.length := VString "4";
     Hike.difficulty := VString "Easy"; Hike.description := VString "";
     Hike.weather := VString ""; Hike.rating := VString "";
     Hike.companions := VString "";
     Hike.createdAt := VString "2024-06-04T08:00:00.000Z" |}.

(** [benNevis] with the weather edited, as the edit form hands it to
    [updateHike]. *)
Definition benNevis_edited : hike :=
  {| Hike.id := VString "2"; Hike.name := VString "Ben Nevis";
     Hike.location := VString "Scotland"; Hike.date := VString "2024-05-01";
     Hike.parking := VString "No"; Hike.length := VString "17";
     Hike.difficulty := VString "Expert"; Hike.description := VString "";
     Hike.weather := VString "Sun"; Hike.rating := VString "5";
     Hike.companions := VString "";
     Hike.createdAt := VString "2024-06-03T08:00:00.000Z" |}.

(** A hike as the form hands it to [addHike] when the optional fields were
    left out. *)
Definition sparse_hike : hike :=
  {| Hike.id := VString "7"; Hike.name := VString "Scafell Pike";
     Hike.location := VString "England"; Hike.date := VString "2024-07-01";
     Hike.parking := VString "Yes"; Hike.length := VString "9";
     Hike.difficulty := VString "Hard"; Hike.description := VUndefined;
     Hike.weather := VNull; Hike.rating := VUndefined;
     Hike.companions := VUndefined; Hike.createdAt := VUndefined |}.

(** The hike of the scenario of the specification, as passed to
    [addHike]. *)
Definition scenario_hike : hike :=
  {| Hike.id := VString "1"; Hike.name := VString "Snowdon";
     Hike.location := VString "Wales"; Hike.date := VString "2024-05-01";
     Hike.parking := VString "Yes"; Hike.length := VString "8.5";
     Hike.difficulty := VString "Hard"; Hike.description := VUndefined;
     Hike.weather := VUndefined; Hike.rating := VUndefined;
     Hike.companions := VUndefined; Hike.createdAt := VUndefined |}.

(** A fallback store over [localStorage] that holds the given rows. *)
Definition holding (rows : list hike) : store :=
  ({| hasLocalStorage := true; memoryRows := [] |}, Some (Serialized rows)).
End Sample.

(** The rows of the fallback store the service is bound to. *)
Definition stored_rows {native : NativeEngine} (s : state) : list hike :=
  match db s with
  | Some (MockDatabase m) => readAll (m, localStorage s)
  | _ => []
  end.

(** A backend is bound: what the first test of [executeTransaction] asks
    for. *)
Definition bound {native : NativeEngine} (s : state) : Prop :=
  isInitialized s = true ∧ is_Some (db s).

(** Running a list of statements through [executeTransaction], one after
    the other. *)
Fixpoint executeEach {dates : DateParser} {native : NativeEngine}
    (stmts : list (string * list value * string)) (s : state)
    : list (DatabaseResult (list record)) * state :=
  match stmts with
  | [] => ([], s)
  | (sql, params, operation) :: rest =>
      let '(r, s) := executeTransaction sql params operation s in
      let '(rs, s) := executeEach rest s in
      (r :: rs, s)
  end.

(** A field the caller left out, or set to [null]. *)
Definition absent (v : value) : Prop := v = VUndefined ∨ v = VNull.

Definition is_text (v : value) : Prop := ∃ s, v = VString s.

(** The fields [addHike] takes from its argument, in the order of the
    parameters of the insert statement. *)
Definition text_fields : list (hike → value) :=
  [ Hike.id; Hike.name; Hike.location; Hike.date; Hike.parking; Hike.length;
    Hike.difficulty; Hike.description; Hike.weather; Hike.rating;
    Hike.companions ].

(** The row the insert branch builds from the parameters of [addHike]. *)
Definition inserted (hike : hike) (now : string) : Hike.t :=
  {| Hike.id := or_empty (Hike.id hike);
     Hike.name := or_empty (Hike.name hike);
     Hike.location := or_empty (Hike.location hike);
     Hike.date := or_empty (Hike.date hike);
     Hike.parking := or_empty (Hike.parking hike);
     Hike.length := or_empty (Hike.length hike);
     Hike.difficulty := or_empty (Hike.difficulty hike);
     Hike.description := or_empty (Hike.description hike);
     Hike.weather := or_empty (Hike.weather hike);
     Hike.rating := or_empty (Hike.rating hike);
     Hike.companions := or_empty (Hike.companions hike);
     Hike.createdAt := VString now |}.

(** The result of [executeTransaction] for the reply of a backend. *)
Definition result_of (r : reply) : DatabaseResult (list record) :=
  match r with
  | OnSuccess rows => Success rows
  | OnError message => Failure (BackendError message)
  | OnTransactionError message => Failure (BackendError message)
  end.

Module Runtimes.
(** A browser. *)
Definition web : runtime := {| OS := "web"; SQLite := None |}.

(** A phone whose SQLite module opens a handle with a [transaction]
    function. *)
Definition phone : runtime :=
  {| OS := "ios";
     SQLite :=
       Some {| openDatabase := Some (Returns (Some {| hasTransaction := true |}));
               openDatabaseSync := None |} |}.
End Runtimes.

Module States.
(** The service in a browser, over a [localStorage] that holds the given
    rows. *)
Definition browser (rows : list hike) : @state Engines.quiet :=
  construct (native:=Engines.quiet) Runtimes.web (Some (Serialized rows)) tt.

(** The service where neither SQLite nor [localStorage] exists: the rows
    live in the memory of the closure. *)
Definition in_memory : @state Engines.quiet :=
  construct (native:=Engines.quiet) {| OS := "android"; SQLite := None |} None tt.

(** The service on a phone whose SQLite module has only the newer entry
    point, which returns a handle without a [transaction] function. *)
Definition newer_module : @state Engines.broken :=
  construct (native:=Engines.broken)
    {| OS := "ios";
       SQLite :=
         Some {| openDatabase := None;
                 openDatabaseSync :=
                   Some (Returns (Some {| hasTransaction := false |})) |} |}
    (Some (Serialized [Sample.snowdon])) tt.

(** The service on a phone whose engine refuses every statement. *)
Definition broken_phone : @state Engines.broken :=
  construct (native:=Engines.broken) Runtimes.phone None tt.
End States.

(** The service runs on a fallback store whose storage facility, if the
    closure found one, is in place. *)
Definition on_fallback {native : NativeEngine} (s : state) : Prop :=
  isInitialized s = true
  ∧ ∃ m, db s = Some (MockDatabase m) ∧ facility_present (m, localStorage s).

(** The service runs on a handle of the SQLite module. *)
Definition on_native {native : NativeEngine} (s : state) (h : handle) : Prop :=
  isInitialized s = true ∧ db s = Some (NativeDatabase h).

(** ** The hike form ([HikeForm]): validation

    The texts of the form are sequences of UTF-16 code units, as the length
    tests of the validation count them. The time value of a date is a
    number of milliseconds, [None] for an invalid date. What [parseFloat]
    makes of a text is the platform's (beyond twenty digits the number it
    returns is implementation-approximated); the validation only looks at
    whether the number is [NaN], at most 0, or above 1000, and the
    development is parametric in that reading ([FloatParser]). *)
Module Form.

Definition text : Type := list N.

(** White space and line terminators, the code units [trim] strips. *)
Definition isWhiteSpace (c : N) : bool :=
  (((9 <=? c) && (c <=? 13)) || (c =? 32) || (c =? 160) || (c =? 5760)
   || ((8192 <=? c) && (c <=? 8202)) || (c =? 8232) || (c =? 8233)
   || (c =? 8239) || (c =? 8287) || (c =? 12288) || (c =? 65279))%N.

Fixpoint trimStart (s : text) : text :=
  match s with
  | c :: s' => if isWhiteSpace c then trimStart s' else s
  | [] => []
  end.

Fixpoint trimEnd (s : text) : text :=
  match s with
  | [] => []
  | c :: s' =>
      match trimEnd s' with
      | [] => if isWhiteSpace c then [] else [c]
      | t => c :: t
      end
  end.

Definition trim (s : text) : text := trimEnd (trimStart s).

(** [\d] *)
Definition isDigit (c : N) : bool := ((48 <=? c) && (c <=? 57))%N.

Fixpoint skipDigits (s : text) : text :=
  match s with
  | c :: s' => if isDigit c then skipDigits s' else s
  | [] => []
  end.

(** [/^\d*\.?\d*$/.test(value)] *)
Definition decimalShape (value : text) : bool :=
  let rest := skipDigits value in
  let rest :=
    match rest with
    | c :: rest' => if (c =? 46)%N then rest' else rest
    | [] => []
    end in
  match skipDigits rest with
  | [] => true
  | _ => false
  end.

(** The value of a code unit as a digit of the radix, if it is one. *)
Definition digitValue (radix : Z) (c : N) : option Z :=
  let v :=
    if isDigit c then Some (Z.of_N c - 48)
    else if ((97 <=? c) && (c <=? 122))%N then Some (Z.of_N c - 87)
    else if ((65 <=? c) && (c <=? 90))%N then Some (Z.of_N c - 55)
    else None in
  match v with
  | Some d => if d <? radix then Some d else None
  | None => None
  end.

(** The number written by the longest prefix of digits of the radix, [acc]
    when there is none. *)
Fixpoint digitsValue (radix : Z) (acc : option Z) (s : text) : option Z :=
  match s with
  | c :: s' =>
      match digitValue radix c with
      | Some d => digitsValue radix (Some (radix * default 0 acc + d)) s'
      | None => acc
      end
  | [] => acc
  end.

(** [parseInt(value)]: leading white space, a sign, the prefix [0x] or [0X]
    for radix 16, then the longest prefix of digits; [None] is [NaN]. *)
Definition parseInt (value : text) : option Z :=
  let input := trimStart value in
  let '(sign, input) :=
    match input with
    | c :: rest =>
        if (c =? 45)%N then (-1, rest)
        else if (c =? 43)%N then (1, rest)
        else (1, input)
    | [] => (1, input)
    end in
  let '(radix, input) :=
    match input with
    | c0 :: c1 :: rest =>
        if ((c0 =? 48) && ((c1 =? 120) || (c1 =? 88)))%N then (16, rest)
        else (10, input)
    | _ => (10, input)
    end in
  match digitsValue radix None input with
  | Some z => Some (sign * z)
  | None => None
  end.

(** What the validation observes of [parseFloat(value)]. *)
Inductive magnitude : Type :=
  | NotANumber
  | AtMostZero
  | UpTo1000
  | Above1000.

Class FloatParser : Type := parseFloat : text → magnitude.

(** The keys of [HikeFormData]. *)
Inductive field : Type :=
  | Name | Location | Date | Parking | Length | Difficulty
  | Description | Weather | Rating | Companions.

Global Instance field_eq_dec : EqDecision field.
Proof. solve_decision. Defined.

Module FormData.
Record t : Type := mk {
  name : text;
  location : text;
  date : option Z;
  parking : text;
  length : text;
  difficulty : text;
  description : text;
  weather : text;
  rating : text;
  companions : text;
}.
End FormData.

(** The two readings of the clock in the date test: [new Date()], and the
    date one hundred years before a second [new Date()]. *)
Record clock : Type := {
  now : Z;
  hundredYearsAgo : Z;
}.

(** [value.trim() === ''] after [!value]. *)
Definition blank (value : text) : bool :=
  match value with
  | [] => true
  | _ => match trim value with [] => true | _ => false end
  end.

(** [value && value.length > n] *)
Definition longer (value : text) (n : nat) : bool :=
  match value with
  | [] => false
  | _ => (n <? Datatypes.length value)%nat
  end.

Section validation.
Context {floats : FloatParser}.

(** [validateField(field, value)]: the message, [None] for [undefined]. *)
Definition validateField (formData : FormData.t) (clk : clock)
    (field : field) (value : text) : option string :=
  match field with
  | Name =>
      if blank value then Some "Hike name is required"
      else if (Datatypes.length (trim value) <? 2)%nat then
        Some "Hike name must be at least 2 characters"
      else if (100 <? Datatypes.length (trim value))%nat then
        Some "Hike name must be less than 100 characters"
      else None
  | Location =>
      if blank value then Some "Location is required"
      else if (Datatypes.length (trim value) <? 2)%nat then
        Some "Location must be at least 2 characters"
      else if (100 <? Datatypes.length (trim value))%nat then
        Some "Location must be less than 100 characters"
      else None
  | Date =>
      match FormData.date formData with
      | None => Some "Valid date is required"
      | Some date =>
          if now clk <? date then Some "Date cannot be in the future"
          else if date <? hundredYearsAgo clk then
            Some "Date seems too far in the past"
          else None
      end
  | Length =>
      if blank value then Some "Hike length is required"
      else
        match parseFloat value with
        | NotANumber => Some "Please enter a valid number"
        | AtMostZero => Some "Length must be greater than 0"
        | Above1000 => Some "Length seems too long (max 1000 km)"
        | UpTo1000 =>
            if negb (decimalShape value) then
              Some "Please enter a valid decimal number"
            else None
        end
  | Difficulty =>
      if blank value then Some "Difficulty level is required" else None
  | Parking =>
      if blank value then Some "Parking information is required" else None
  | Description =>
      if longer value 1000 then
        Some "Description must be less than 1000 characters"
      else None
  | Weather =>
      if longer value 50 then
        Some "Weather description must be less than 50 characters"
      else None
  | Rating =>
      match value with
      | [] => None
      | _ =>
          match parseInt value with
          | None => Some "Rating must be between 1 and 5"
          | Some ratingNum =>
              if (ratingNum <? 1) || (5 <? ratingNum) then
                Some "Rating must be between 1 and 5"
              else None
          end
      end
  | Companions =>
      if longer value 100 then
        Some "Companions list must be less than 100 characters"
      else None
  end.

(** [formData[field]] for the text fields. *)
Definition valueOf (formData : FormData.t) (field : field) : text :=
  match field with
  | Name => FormData.name formData
  | Location => FormData.location formData
  | Date => []
  | Parking => FormData.parking formData
  | Length => FormData.length formData
  | Difficulty => FormData.difficulty formData
  | Description => FormData.description formData
  | Weather => FormData.weather formData
  | Rating => FormData.rating formData
  | Companions => FormData.companions formData
  end.

(** [FieldErrors]: the message under each key, if any. *)
Definition FieldErrors : Type := field → option string.

Definition noErrors : FieldErrors := λ _, None.

(** [errors[field] = error] *)
Definition setError (field : field) (error : string) (errors : FieldErrors)
    : FieldErrors :=
  λ key, if decide (key = field) then Some error else errors key.

(** The body of the two [forEach] loops and of the date test:
    [const error = validateField(field, value); if (error) { errors[field] =
    error; isValid = false; }]. *)
Definition record (formData : FormData.t) (clk : clock)
    (field : field) (value : text) (acc : FieldErrors * bool)
    : FieldErrors * bool :=
  match validateField formData clk field value with
  | Some error => (setError field error acc.1, false)
  | None => acc
  end.

Definition requiredFields : list field :=
  [Name; Location; Length; Difficulty; Parking].

Definition optionalFields : list field :=
  [Description; Weather; Rating; Companions].

(** The state of the form the validation reads and writes. *)
Record component : Type := {
  formData : FormData.t;
  fieldErrors : FieldErrors;
  touchedFields : field → bool;
  showConfirmation : bool;
}.

(** [validateForm()]: the verdict, and the state with the errors set and,
    for an invalid form, every field touched. *)
Definition validateForm (clk : clock) (c : component) : bool * component :=
  let data := formData c in
  let acc := (noErrors, true) in
  let acc :=
    foldl (λ acc field, record data clk field (valueOf data field) acc)
      acc requiredFields in
  let acc := record data clk Date [] acc in
  let acc :=
    foldl (λ acc field,
             match valueOf data field with
             | [] => acc
             | _ => record data clk field (valueOf data field) acc
             end)
      acc optionalFields in
  let '(errors, isValid) := acc in
  (isValid,
   {| formData := data;
      fieldErrors := errors;
      touchedFields := if isValid then touchedFields c else λ _, true;
      showConfirmation := showConfirmation c |}).

(** [handleSubmit()] *)
Definition handleSubmit (clk : clock) (c : component) : component :=
  let '(isValid, c) := validateForm clk c in
  if isValid then
    {| formData := formData c; fieldErrors := fieldErrors c;
       touchedFields := touchedFields c; showConfirmation := true |}
  else c.

(** The keys in the order in which [validateForm] goes through them. *)
Definition allChecked : list field := requiredFields ++ [Date] ++ optionalFields.

(** One pass over all the keys, each checked on its own value. *)
Definition onePass (data : FormData.t) (clk : clock) : FieldErrors * bool :=
  foldl (λ acc f, record data clk f (valueOf data f) acc)
    (noErrors, true) allChecked.

(** The forms the validation is meant to let through, field by field. *)
Definition acceptable (data : FormData.t) (clk : clock) : Prop :=
  (2 ≤ Datatypes.length (trim (FormData.name data)) ≤ 100)%nat
  ∧ (2 ≤ Datatypes.length (trim (FormData.location data)) ≤ 100)%nat
  ∧ (trim (FormData.length data) ≠ []
     ∧ parseFloat (FormData.length data) = UpTo1000
     ∧ decimalShape (FormData.length data) = true)
  ∧ trim (FormData.difficulty data) ≠ []
  ∧ trim (FormData.parking data) ≠ []
  ∧ (∃ t, FormData.date data = Some t ∧ hundredYearsAgo clk ≤ t ≤ now clk)
  ∧ (Datatypes.length (FormData.description data) ≤ 1000)%nat
  ∧ (Datatypes.length (FormData.weather data) ≤ 50)%nat
  ∧ (FormData.rating data = []
     ∨ ∃ n, parseInt (FormData.rating data) = Some n ∧ 1 ≤ n ≤ 5)
  ∧ (Datatypes.length (FormData.companions data) ≤ 100)%nat.
End validation.

(** The code units of an ASCII text. *)
Definition ofString (s : string) : text :=
  (λ a, N_of_ascii a) <$> list_ascii_of_string s.

(** A reading of [parseFloat] for the examples: digits with an optional
    fraction are read as the decimal number they write (without rounding
    to a double), and a text that starts with neither a digit nor a dot
    followed by a digit is no number. Signs, exponents and [Infinity] are
    not read. *)
Fixpoint decimalDigits (acc : Z) (s : text) : Z * text :=
  match s with
  | c :: s' => if isDigit c then decimalDigits (10 * acc + (Z.of_N c - 48)) s'
               else (acc, s)
  | [] => (acc, [])
  end.

Fixpoint anyNonZeroDigit (s : text) : bool :=
  match s with
  | c :: s' => isDigit c && (negb (c =? 48)%N || anyNonZeroDigit s')
  | [] => false
  end.

Definition plainDecimal : FloatParser := λ value,
  let input := trimStart value in
  let '(whole, rest) := decimalDigits 0 input in
  let hasWhole :=
    negb (Nat.eqb (Datatypes.length rest) (Datatypes.length input)) in
  let fraction :=
    match rest with
    | c :: rest' => if (c =? 46)%N then rest' else []
    | [] => []
    end in
  let hasFraction :=
    match fraction with c :: _ => isDigit c | [] => false end in
  if negb (hasWhole || hasFraction) then NotANumber
  else if (whole =? 0) && negb (anyNonZeroDigit fraction) then AtMostZero
  else if (1000 <? whole) || ((whole =? 1000) && anyNonZeroDigit fraction)
  then Above1000
  else UpTo1000.

(** A form as filled in for a walk up Snowdon. *)
Definition snowdonForm : FormData.t :=
  {| FormData.name := ofString "Snowdon";
     FormData.location := ofString "Wales";
     FormData.date := Some 1714521600000;
     FormData.parking := ofString "Yes";
     FormData.length := ofString "8.5";
     FormData.difficulty := ofString "Hard";
     FormData.description := [];
     FormData.weather := [];
     FormData.rating := ofString "4";
     FormData.companions := [] |}.

(** Noon of 2024-05-02, and the same instant in 1924. *)
Definition may2024 : clock :=
  {| now := 1714651200000; hundredYearsAgo := -1441108800000 |}.
End Form.

(** * Properties *)

(** ** The concrete date parser and the string primitives on examples *)

Example iso_date_only : Iso.parse "2024-05-01" = Some 1714521600000.
Proof. reflexivity. Qed.

Example iso_timestamp :
  Iso.parse "2024-05-01T10:30:00.250Z" = Some 1714559400250.
Proof. reflexivity. Qed.

Example iso_epoch : Iso.parse "1970-01-01" = Some 0.
Proof. reflexivity. Qed.

Example iso_rejects : Iso.parse "next tuesday" = None.
Proof. reflexivity. Qed.

Example trim_upper :
  Str.toUpperCase (Str.trim "
   select * from hikes  ") = "SELECT * FROM HIKES".
Proof. reflexivity. Qed.

(** ** The sort *)

Section sort_facts.
Context {A : Type} (comparefn : A → A → number).

Lemma insert_perm x l : Array.insert comparefn x l ≡ₚ x :: l.
Proof.
  induction l as [|y l IH]; simpl; [done|].
  case_match; [|done].
  rewrite IH. apply Permutation_swap.
Qed.

Lemma sort_perm l : Array.sort comparefn l ≡ₚ l.
Proof.
  induction l as [|x l IH]; simpl; [done|].
  rewrite insert_perm. by f_equiv.
Qed.

(** Elements that never compare as "the other one first" among themselves
    keep their relative order: the sort is stable. *)
Lemma insert_filter (P : A → Prop) `{∀ x, Decision (P x)} x l :
  (∀ y, P x → P y → Array.SortCompare comparefn x y ≤ 0) →
  filter P (Array.insert comparefn x l) = filter P (x :: l).
Proof.
  intros Hties. induction l as [|y l IH]; simpl; [done|].
  case_match eqn:Hcmp; [|done].
  rewrite filter_cons, IH, !filter_cons.
  destruct (decide (P y)) as [Hy|Hy]; [|done].
  destruct (decide (P x)) as [Hx|Hx]; [|done].
  specialize (Hties y Hx Hy). apply Z.ltb_lt in Hcmp. lia.
Qed.

Lemma sort_stable (P : A → Prop) `{∀ x, Decision (P x)} l :
  (∀ x y, P x → P y → Array.SortCompare comparefn x y ≤ 0) →
  filter P (Array.sort comparefn l) = filter P l.
Proof.
  intros Hties. induction l as [|x l IH]; simpl; [done|].
  rewrite insert_filter by eauto.
  by rewrite !filter_cons, IH.
Qed.
End sort_facts.

Section sort_by_key.
Context {A : Type} (key : A → number).

Lemma not_before_trans a b c :
  not_before key a b → not_before key b c → not_before key a c.
Proof.
  intros (ta & tb & Ha & Hb & Hab) (tb' & tc & Hb' & Hc & Hbc).
  exists ta, tc. repeat split; [done..|]. simplify_eq. lia.
Qed.

Lemma insert_sorted x l :
  keyed key x → Forall (keyed key) l →
  StronglySorted (not_before key) l →
  StronglySorted (not_before key) (Array.insert (keyDesc key) x l).
Proof.
  intros [tx Hx] Hl Hs. induction Hs as [|y l Hs IH Hy]; simpl.
  { repeat constructor. }
  apply Forall_cons in Hl as [[ty Hty] Hl].
  unfold Array.SortCompare, keyDesc at 1. rewrite Hx, Hty. simpl.
  case_match eqn:Hcmp.
  - apply Z.ltb_lt in Hcmp. constructor; [by apply IH|].
    rewrite insert_perm. constructor; [|done].
    exists ty, tx. repeat split; [done..|lia].
  - apply Z.ltb_ge in Hcmp.
    assert (not_before key x y) as Hxy.
    { exists tx, ty. repeat split; [done..|lia]. }
    constructor; [by constructor|].
    constructor; [done|].
    eapply Forall_impl; [exact Hy|]. intros z Hz.
    by apply not_before_trans with y.
Qed.

Lemma sort_sorted l :
  Forall (keyed key) l →
  StronglySorted (not_before key) (Array.sort (keyDesc key) l).
Proof.
  induction 1 as [|x l Hx Hl IH]; simpl; [constructor|].
  apply insert_sorted; [done| |done].
  by rewrite sort_perm.
Qed.

Lemma key_inj_on l x y :
  NoDup (key <$> l) → x ∈ l → y ∈ l → key x = key y → x = y.
Proof.
  induction l as [|z l IH]; csimpl; [by intros _ ?%elem_of_nil|].
  rewrite NoDup_cons. intros [Hz Hnd] Hx Hy Hk.
  apply elem_of_cons in Hx as [->|Hx], Hy as [->|Hy]; [done| | |by apply IH].
  - destruct Hz. rewrite Hk. by apply list_elem_of_fmap_2.
  - destruct Hz. rewrite <-Hk. by apply list_elem_of_fmap_2.
Qed.

(** With pairwise distinct keys the order of the input does not
    matter. *)
Lemma sort_order_independent l l' :
  Forall (keyed key) l → NoDup (key <$> l) → l' ≡ₚ l →
  Array.sort (keyDesc key) l' = Array.sort (keyDesc key) l.
Proof.
  intros Hk Hnd Hp.
  apply (StronglySorted_unique_strong (not_before key)).
  - intros x y Hx Hy (tx & ty & Hx1 & Hy1 & Hle) (ty' & tx' & Hy2 & Hx2 & Hge).
    rewrite sort_perm in Hx, Hy. rewrite Hp in Hx.
    apply (key_inj_on l); [done..|].
    rewrite Hx1, Hy1 in *. simplify_eq. f_equal. lia.
  - apply sort_sorted. by rewrite Hp.
  - by apply sort_sorted.
  - by rewrite !sort_perm.
Qed.
End sort_by_key.

(** ** The statements of the fallback store *)

Lemma byDateDesc_keyDesc {dates : DateParser} : byDateDesc = keyDesc dateTime.
Proof. reflexivity. Qed.

Lemma startsWith_head s c p :
  Str.startsWith s (String c p) = true → ∃ s', s = String c s'.
Proof.
  unfold Str.startsWith. destruct s as [|c' s']; simpl; [done|].
  destruct (ascii_dec c c') as [->|]; [eauto|done].
Qed.

Section store_facts.
Context {dates : DateParser}.

Lemma executeSql_insert params st :
  executeSql insertSQL params st =
    (OnSuccess [],
     writeAll (readAll st ++
       [Hike.mk (at_index params 0) (at_index params 1) (at_index params 2)
          (at_index params 3) (at_index params 4) (at_index params 5)
          (at_index params 6) (at_index params 7) (at_index params 8)
          (at_index params 9) (at_index params 10) (at_index params 11)])
       st).
Proof. reflexivity. Qed.

Lemma executeSql_selectAll params st :
  executeSql selectAllSQL params st =
    (OnSuccess (HikeRecord <$> Array.sort byDateDesc (readAll st)), st).
Proof. reflexivity. Qed.

(** The select-by-id text starts with the text the select-all branch
    tests for, and that branch stands first: the statement is answered
    as a select-all, whatever the parameter. *)
Lemma executeSql_selectById params st :
  executeSql selectByIdSQL params st =
    (OnSuccess (HikeRecord <$> Array.sort byDateDesc (readAll st)), st).
Proof. reflexivity. Qed.

Lemma executeSql_delete params st :
  executeSql deleteSQL params st =
    (OnSuccess [],
     writeAll (filter (λ r, Hike.id r ≠ at_index params 0) (readAll st)) st).
Proof. reflexivity. Qed.

Lemma executeSql_deleteAll params st :
  executeSql deleteAllSQL params st = (OnSuccess [], writeAll [] st).
Proof. reflexivity. Qed.

Lemma executeSql_dropTable params st :
  executeSql dropTableSQL params st = (OnSuccess [], writeAll [] st).
Proof. reflexivity. Qed.

Lemma executeSql_createTable params st :
  executeSql createTableSQL params st = (OnSuccess [], st).
Proof. reflexivity. Qed.

Lemma executeSql_count params st :
  executeSql countSQL params st =
    (OnSuccess [CountRecord (length (readAll st))], st).
Proof. reflexivity. Qed.

(** Every statement whose normalized text starts with [UPDATE HIKES]
    reaches the update branch. *)
Lemma executeSql_update_any sql params st :
  Str.startsWith (normalize sql) "UPDATE HIKES" = true →
  executeSql sql params st =
    (OnSuccess [], writeAll (updated params <$> readAll st) st).
Proof.
  intros Hupd. unfold executeSql. fold (normalize sql).
  destruct (startsWith_head _ _ _ Hupd) as [n Hn].
  rewrite Hupd, Hn. reflexivity.
Qed.

Lemma executeSql_update params st :
  executeSql updateSQL params st =
    (OnSuccess [], writeAll (updated params <$> readAll st) st).
Proof. by apply executeSql_update_any. Qed.

(** The store always answers through the success callback. *)
Lemma executeSql_succeeds sql params st :
  ∃ rows, (executeSql sql params st).1 = OnSuccess rows.
Proof.
  unfold executeSql. repeat case_match; simpl; eauto.
Qed.

Lemma readAll_writeAll rows st :
  facility_present st → readAll (writeAll rows st) = rows.
Proof.
  destruct st as [[hasLS mem] ls]. unfold facility_present. simpl.
  destruct hasLS; simpl; [|done].
  intros Hls. destruct Hls as [it ->]; done.
Qed.

Lemma readAll_writeAll_same st :
  readAll (writeAll (readAll st) st) = readAll st.
Proof.
  destruct st as [[[] mem] [[]|]]; done.
Qed.

Lemma readAll_writeAll_nil st : readAll (writeAll [] st) = [].
Proof.
  destruct st as [[[] mem] [[]|]]; done.
Qed.

Lemma facility_present_writeAll rows st :
  facility_present st → facility_present (writeAll rows st).
Proof.
  destruct st as [[[] mem] [[]|]]; unfold facility_present; simpl; eauto.
Qed.
End store_facts.

(** ** Select-by-id *)

(** C2, at a concrete store: asked for the row with id 2 among two rows,
    the select-by-id statement answers both rows (latest date first),
    where the rows whose id is 2 are the single row [benNevis]. *)
Theorem select_by_id_answers_every_row :
  (executeSql (dates:=Iso.parse) selectByIdSQL [VString "2"]
     (Sample.holding [Sample.snowdon; Sample.benNevis])).1
    = OnSuccess [HikeRecord Sample.snowdon; HikeRecord Sample.benNevis]
  ∧ filter (λ r, Hike.id r = VString "2") [Sample.snowdon; Sample.benNevis]
      = [Sample.benNevis].
Proof. split; reflexivity. Qed.

(** ** Select-all *)

Section select_all.
Import Sample.

(** C4, as stated, fails where two rows share a date: two stores that hold
    the same two rows of one date, in the two orders, get two different
    listings, each in the order of its store. *)
Lemma select_all_ties_follow_insertion :
  let st := holding [benNevis; glenNevis] in
  let st' := holding [glenNevis; benNevis] in
  readAll st ≡ₚ readAll st'
  ∧ Forall (λ r, is_Some (dateTime (dates:=Iso.parse) r)) (readAll st)
  ∧ (executeSql (dates:=Iso.parse) selectAllSQL [] st).1
      = OnSuccess [HikeRecord benNevis; HikeRecord glenNevis]
  ∧ (executeSql (dates:=Iso.parse) selectAllSQL [] st').1
      = OnSuccess [HikeRecord glenNevis; HikeRecord benNevis]
  ∧ (executeSql (dates:=Iso.parse) selectAllSQL [] st).1
      ≠ (executeSql (dates:=Iso.parse) selectAllSQL [] st').1.
Proof.
  split; [apply Permutation_swap|].
  split; [repeat constructor; eexists; reflexivity|].
  split; [reflexivity|]. split; [reflexivity|]. discriminate.
Qed.

Context {dates : DateParser}.

(** C4, amended: when every stored date is a date, select-all answers the
    stored rows, each once, latest date first, rows of the same time in
    the order of their insertion; and when the times are pairwise
    distinct, a store that holds the same rows in another order gets the
    same answer. *)
Theorem select_all_ordering (st : store) (params : list value) :
  Forall (λ r, is_Some (dateTime r)) (readAll st) →
  ∃ out,
    executeSql selectAllSQL params st = (OnSuccess (HikeRecord <$> out), st)
    ∧ out ≡ₚ readAll st
    ∧ StronglySorted (not_before dateTime) out
    ∧ (∀ t, filter (λ r, dateTime r = Some t) out
            = filter (λ r, dateTime r = Some t) (readAll st))
    ∧ (NoDup (dateTime <$> readAll st) →
       ∀ st', readAll st' ≡ₚ readAll st →
         (executeSql selectAllSQL params st').1
           = OnSuccess (HikeRecord <$> out)).
Proof.
  intros Hdates. exists (Array.sort byDateDesc (readAll st)).
  split; [apply executeSql_selectAll|].
  split; [apply sort_perm|].
  split; [by apply (sort_sorted dateTime)|].
  split.
  - intros t. apply sort_stable. intros x y Hx Hy.
    unfold Array.SortCompare, byDateDesc. fold (dateTime x) (dateTime y).
    rewrite Hx, Hy. simpl. lia.
  - intros Hnd st' Hperm. rewrite executeSql_selectAll. simpl. do 2 f_equal.
    by apply (sort_order_independent dateTime).
Qed.
End select_all.

(** The amended C4 at a store that holds [benNevis] and [snowdon]: both
    dates are dates, and they differ. *)
Lemma select_all_ordering_witness :
  let st := Sample.holding [Sample.benNevis; Sample.snowdon] in
  Forall (λ r, is_Some (dateTime (dates:=Iso.parse) r)) (readAll st)
  ∧ NoDup (dateTime (dates:=Iso.parse) <$> readAll st)
  ∧ ∃ out,
      executeSql (dates:=Iso.parse) selectAllSQL [] st
        = (OnSuccess (HikeRecord <$> out), st)
      ∧ out ≡ₚ readAll st
      ∧ StronglySorted (not_before (dateTime (dates:=Iso.parse))) out
      ∧ (∀ t, filter (λ r, dateTime (dates:=Iso.parse) r = Some t) out
              = filter (λ r, dateTime (dates:=Iso.parse) r = Some t)
                  (readAll st))
      ∧ (NoDup (dateTime (dates:=Iso.parse) <$> readAll st) →
         ∀ st', readAll st' ≡ₚ readAll st →
           (executeSql (dates:=Iso.parse) selectAllSQL [] st').1
             = OnSuccess (HikeRecord <$> out)).
Proof.
  intros st.
  assert (Forall (λ r, is_Some (dateTime (dates:=Iso.parse) r)) (readAll st))
    as Hd.
  { repeat constructor; eexists; reflexivity. }
  split; [exact Hd|]. split.
  { apply (bool_decide_unpack _). vm_compute. exact I. }
  exact (select_all_ordering (dates:=Iso.parse) st [] Hd).
Defined.

(** ** Update and the other rows *)

Section update_frame.
Context {dates : DateParser}.

(** A write of rows computed from the rows read is read back, provided the
    computation maps the empty list to itself (a closure whose storage
    facility is gone reads and keeps the empty list). *)
Lemma readAll_writeAll_of_read (g : list hike → list hike) st :
  g [] = [] → readAll (writeAll (g (readAll st)) st) = g (readAll st).
Proof.
  intros Hg. destruct st as [[[] mem] [[]|]]; simpl; by rewrite ?Hg.
Qed.

Lemma updated_other params r :
  Hike.id r ≠ at_last params → updated params r = r.
Proof.
  intros Hne. unfold updated, strict_eq. by rewrite bool_decide_eq_false_2.
Qed.

(** C5: an update statement of the fallback store keeps the number of
    rows, leaves every row whose id differs from the id parameter (the last
    parameter) in its place and unchanged in every field, and changes
    nothing at all when no row has that id. *)
Theorem update_leaves_other_rows
    (sql : string) (params : list value) (st : store) :
  Str.startsWith (normalize sql) "UPDATE HIKES" = true →
  let st' := (executeSql sql params st).2 in
  length (readAll st') = length (readAll st)
  ∧ (∀ i r, readAll st !! i = Some r → Hike.id r ≠ at_last params →
            readAll st' !! i = Some r)
  ∧ ((∀ r, r ∈ readAll st → Hike.id r ≠ at_last params) →
     readAll st' = readAll st).
Proof.
  intros Hupd st'. subst st'. rewrite executeSql_update_any by done. simpl.
  rewrite (readAll_writeAll_of_read (fmap (updated params))) by done.
  split; [by rewrite length_fmap|]. split.
  - intros i r Hi Hne. rewrite list_lookup_fmap, Hi. simpl.
    by rewrite updated_other.
  - intros Hnone. induction (readAll st) as [|r rows IH]; csimpl; [done|].
    rewrite updated_other by (apply Hnone; left).
    f_equal. apply IH. intros r' Hr'. apply Hnone. by right.
Qed.
End update_frame.

(** C5 at the statement of [updateHike] for the row with id 2, on a store
    that holds [snowdon] and [benNevis]. *)
Lemma update_leaves_other_rows_witness :
  Str.startsWith (normalize updateSQL) "UPDATE HIKES" = true
  ∧ let params := DatabaseService.updateHike_params Sample.benNevis in
    let st := Sample.holding [Sample.snowdon; Sample.benNevis] in
    let st' := (executeSql (dates:=Iso.parse) updateSQL params st).2 in
    length (readAll st') = length (readAll st)
    ∧ (∀ i r, readAll st !! i = Some r → Hike.id r ≠ at_last params →
              readAll st' !! i = Some r)
    ∧ ((∀ r, r ∈ readAll st → Hike.id r ≠ at_last params) →
       readAll st' = readAll st).
Proof.
  split; [reflexivity|].
  apply (update_leaves_other_rows (dates:=Iso.parse) updateSQL
           (DatabaseService.updateHike_params Sample.benNevis)
           (Sample.holding [Sample.snowdon; Sample.benNevis])).
  reflexivity.
Defined.

(** ** Stored data that cannot be parsed *)

Section unparseable.
Context {dates : DateParser}.

Lemma same_reading_refl st : same_reading st st.
Proof. by repeat split. Qed.

Lemma same_reading_writeAll rows st1 st2 :
  same_reading st1 st2 → same_reading (writeAll rows st1) (writeAll rows st2).
Proof.
  destruct st1 as [[h1 mem1] l1], st2 as [[h2 mem2] l2].
  intros (Hm & _ & Hf). simpl in *. simplify_eq.
  destruct h2, l1 as [i1|], l2 as [i2|]; repeat split; simpl in *;
    try done; try (by eauto);
    try (exfalso; by (apply is_Some_None, Hf) || (eapply is_Some_None, Hf)).
Qed.

(** A statement answers the same on two stores of the same reading, and
    leaves stores of the same reading. *)
Lemma executeSql_same_reading sql params st1 st2 :
  same_reading st1 st2 →
  (executeSql sql params st1).1 = (executeSql sql params st2).1
  ∧ same_reading (executeSql sql params st1).2 (executeSql sql params st2).2.
Proof.
  intros Hsame. pose proof Hsame as (_ & Hread & _).
  unfold executeSql. rewrite Hread.
  repeat case_match; simpl; (split; [done|]);
    first [done | by apply same_reading_writeAll].
Qed.

Lemma executeAll_same_reading stmts st1 st2 :
  same_reading st1 st2 →
  (executeAll stmts st1).1 = (executeAll stmts st2).1.
Proof.
  revert st1 st2. induction stmts as [|[sql params] stmts IH];
    intros st1 st2 Hsame; simpl; [done|].
  destruct (executeSql_same_reading sql params st1 st2 Hsame) as [Hr Hs].
  destruct (executeSql sql params st1) as [r1 st1'].
  destruct (executeSql sql params st2) as [r2 st2'].
  simpl in *. specialize (IH _ _ Hs).
  destruct (executeAll stmts st1'), (executeAll stmts st2'). simpl in *.
  congruence.
Qed.

Lemma executeAll_succeeds stmts st :
  Forall (λ r, ∃ rows, r = OnSuccess rows) (executeAll stmts st).1.
Proof.
  revert st. induction stmts as [|[sql params] stmts IH]; intros st; simpl.
  { constructor. }
  pose proof (executeSql_succeeds sql params st) as Hok.
  destruct (executeSql sql params st) as [r st'].
  specialize (IH st'). destruct (executeAll stmts st'). simpl in *.
  by constructor.
Qed.

(** C9: when the text stored under the key cannot be parsed, the read of
    the fallback store over [localStorage] returns the empty list, and
    every run of statements answers, each through the success callback,
    what it answers on a store that holds the empty list. *)
Theorem unparseable_reads_as_empty
    (m : mock) (raw : string) (stmts : list (string * list value)) :
  hasLocalStorage m = true →
  readAll (m, Some (Unparseable raw)) = []
  ∧ (executeAll stmts (m, Some (Unparseable raw))).1
      = (executeAll stmts (m, Some (Serialized []))).1
  ∧ Forall (λ r, ∃ rows, r = OnSuccess rows)
      (executeAll stmts (m, Some (Unparseable raw))).1.
Proof.
  intros HLS. split; [by simpl; rewrite HLS|]. split.
  - apply executeAll_same_reading.
    split; [done|]. split; [by simpl; rewrite HLS|]. simpl. split; eauto.
  - apply executeAll_succeeds.
Qed.
End unparseable.

(** C9 at a cut-off text, followed by a count, an insert and a select. *)
Lemma unparseable_reads_as_empty_witness :
  let m := {| hasLocalStorage := true; memoryRows := [] |} in
  let raw := "[{" in
  let stmts := [(countSQL, []);
                (insertSQL, DatabaseService.addHike_params Sample.snowdon
                              "2024-06-02T08:00:00.000Z");
                (selectAllSQL, [])] in
  hasLocalStorage m = true
  ∧ readAll (m, Some (Unparseable raw)) = []
  ∧ (executeAll (dates:=Iso.parse) stmts (m, Some (Unparseable raw))).1
      = (executeAll (dates:=Iso.parse) stmts (m, Some (Serialized []))).1
  ∧ Forall (λ r, ∃ rows, r = OnSuccess rows)
      (executeAll (dates:=Iso.parse) stmts (m, Some (Unparseable raw))).1.
Proof.
  split; [reflexivity|].
  apply (unparseable_reads_as_empty (dates:=Iso.parse)
           {| hasLocalStorage := true; memoryRows := [] |} "[{"). reflexivity.
Defined.

(** ** The service on the fallback store *)

#[local] Arguments readAll : simpl never.
#[local] Arguments writeAll : simpl never.
#[local] Arguments executeSql : simpl never.

Section on_fallback.
Context {dates : DateParser} {native : NativeEngine}.

Lemma executeTransaction_fallback sql params operation s m :
  isInitialized s = true → db s = Some (MockDatabase m) →
  executeTransaction sql params operation s =
    (result_of (executeSql sql params (m, localStorage s)).1,
     {| db := Some (MockDatabase (executeSql sql params (m, localStorage s)).2.1);
        isInitialized := true;
        localStorage := (executeSql sql params (m, localStorage s)).2.2;
        engine := engine s;
        issued := issued s ++ [(sql, params)] |}).
Proof.
  intros Hinit Hdb. unfold executeTransaction. rewrite Hinit, Hdb. simpl.
  rewrite Hinit.
  destruct (executeSql sql params (m, localStorage s)) as [r [m' ls']].
  by destruct r.
Qed.

(** The same, for the rows: a statement of the service acts on the stored
    rows as [executeSql] does. *)
Lemma stored_rows_fallback sql params operation s m :
  isInitialized s = true → db s = Some (MockDatabase m) →
  stored_rows (executeTransaction sql params operation s).2
    = readAll (executeSql sql params (m, localStorage s)).2.
Proof.
  intros Hinit Hdb. rewrite (executeTransaction_fallback _ _ _ _ m) by done.
  unfold stored_rows. simpl.
  by destruct (executeSql sql params (m, localStorage s)) as [r [m' ls']].
Qed.

Lemma or_empty_idemp v : or_empty (or_empty v) = or_empty v.
Proof. by destruct v as [| |[|c s]]. Qed.

Lemma or_empty_text v : is_text (or_empty v).
Proof. destruct v as [| |[|c s]]; by eexists. Qed.

Lemma or_empty_absent v : absent v → or_empty v = VString "".
Proof. by intros [->| ->]. Qed.

(** The exported [addHike] hands the service a hike that went through the
    defaults once already; the parameters are those of the hike itself. *)
Lemma addHike_params_defaults (hike : hike) now :
  DatabaseService.addHike_params
    {| Hike.id := or_empty (Hike.id hike);
       Hike.name := or_empty (Hike.name hike);
       Hike.location := or_empty (Hike.location hike);
       Hike.date := or_empty (Hike.date hike);
       Hike.parking := or_empty (Hike.parking hike);
       Hike.length := or_empty (Hike.length hike);
       Hike.difficulty := or_empty (Hike.difficulty hike);
       Hike.description := or_empty (Hike.description hike);
       Hike.weather := or_empty (Hike.weather hike);
       Hike.rating := or_empty (Hike.rating hike);
       Hike.companions := or_empty (Hike.companions hike);
       Hike.createdAt := VUndefined |} now
  = DatabaseService.addHike_params hike now.
Proof.
  unfold DatabaseService.addHike_params. simpl. by rewrite !or_empty_idemp.
Qed.

Lemma addHike_params_row (hike : hike) now :
  DatabaseService.addHike_params hike now =
    [ Hike.id (inserted hike now); Hike.name (inserted hike now);
      Hike.location (inserted hike now); Hike.date (inserted hike now);
      Hike.parking (inserted hike now); Hike.length (inserted hike now);
      Hike.difficulty (inserted hike now); Hike.description (inserted hike now);
      Hike.weather (inserted hike now); Hike.rating (inserted hike now);
      Hike.companions (inserted hike now); Hike.createdAt (inserted hike now) ].
Proof.
  unfold DatabaseService.addHike_params. simpl. by rewrite !or_empty_idemp.
Qed.

Lemma addHike_fallback (hike : hike) now s m :
  isInitialized s = true → db s = Some (MockDatabase m) →
  facility_present (m, localStorage s) →
  (addHike hike now s).1 = Resolved tt
  ∧ stored_rows (addHike hike now s).2 = stored_rows s ++ [inserted hike now]
  ∧ issued (addHike hike now s).2
      = issued s ++ [(insertSQL, DatabaseService.addHike_params hike now)]
  ∧ isInitialized (addHike hike now s).2 = true
  ∧ ∃ m', db (addHike hike now s).2 = Some (MockDatabase m').
Proof.
  intros Hinit Hdb Hfac.
  unfold addHike, DatabaseService.addHike. rewrite addHike_params_defaults.
  pose proof (stored_rows_fallback insertSQL
    (DatabaseService.addHike_params hike now) "add hike" s m Hinit Hdb) as Hrows.
  rewrite (executeTransaction_fallback _ _ _ _ m) in * by done.
  rewrite executeSql_insert in *. simpl in *.
  split; [done|]. split; [|eauto].
  rewrite Hrows, readAll_writeAll by done.
  unfold stored_rows. rewrite Hdb. f_equal.
  rewrite addHike_params_row. reflexivity.
Qed.
End on_fallback.

Section api_on_fallback.
Context {dates : DateParser} {native : NativeEngine}.

(** On the fallback store [getHikeById] answers the first row of the
    select-all listing, whatever the id. *)
Lemma getHikeById_fallback id s m :
  isInitialized s = true → db s = Some (MockDatabase m) →
  (getHikeById id s).1
    = Resolved (head (HikeRecord <$> Array.sort byDateDesc (stored_rows s))).
Proof.
  intros Hinit Hdb. unfold getHikeById, DatabaseService.getHikeById.
  rewrite (executeTransaction_fallback _ _ _ _ m) by done.
  rewrite executeSql_selectById. simpl.
  unfold stored_rows. by rewrite Hdb.
Qed.

Lemma getAllHikes_fallback s m :
  isInitialized s = true → db s = Some (MockDatabase m) →
  (getAllHikes s).1
    = Resolved (HikeRecord <$> Array.sort byDateDesc (stored_rows s)).
Proof.
  intros Hinit Hdb. unfold getAllHikes, DatabaseService.getAllHikes.
  rewrite (executeTransaction_fallback _ _ _ _ m) by done.
  rewrite executeSql_selectAll. simpl.
  unfold stored_rows. by rewrite Hdb.
Qed.

(** On an empty store the round trip holds: the row just created is the
    one [getHikeById] answers. *)
Lemma create_then_get_on_empty (hike : hike) now s m :
  isInitialized s = true → db s = Some (MockDatabase m) →
  facility_present (m, localStorage s) → stored_rows s = [] →
  (getHikeById (Hike.id hike) (addHike hike now s).2).1
    = Resolved (Some (HikeRecord (inserted hike now))).
Proof.
  intros Hinit Hdb Hfac Hempty.
  destruct (addHike_fallback hike now s m Hinit Hdb Hfac)
    as (_ & Hrows & _ & Hinit' & m' & Hdb').
  rewrite (getHikeById_fallback _ _ m') by done.
  by rewrite Hrows, Hempty.
Qed.

Lemma updateHike_fallback (hike : hike) s m :
  isInitialized s = true → db s = Some (MockDatabase m) →
  (updateHike hike s).1 = Resolved tt
  ∧ stored_rows (updateHike hike s).2
      = updated (DatabaseService.updateHike_params hike) <$> stored_rows s.
Proof.
  intros Hinit Hdb. unfold updateHike, DatabaseService.updateHike.
  pose proof (stored_rows_fallback updateSQL
    (DatabaseService.updateHike_params hike) "update hike" s m Hinit Hdb) as Hrows.
  rewrite (executeTransaction_fallback _ _ _ _ m) in * by done.
  rewrite executeSql_update in *. simpl in *. split; [done|].
  rewrite Hrows.
  rewrite (readAll_writeAll_of_read
             (fmap (updated (DatabaseService.updateHike_params hike)))) by done.
  unfold stored_rows. by rewrite Hdb.
Qed.

(** The update branch reads the time stamp at index 10 of the parameters,
    where [updateHike] puts the id: the row that matches gets its own id as
    its time stamp. *)
Lemma updated_createdAt (hike : hike) r :
  Hike.id r = Hike.id hike →
  Hike.createdAt (updated (DatabaseService.updateHike_params hike) r)
    = Hike.id hike.
Proof.
  intros Hid. unfold updated, strict_eq. simpl.
  unfold at_last, at_index. simpl.
  by rewrite bool_decide_eq_true_2.
Qed.

Lemma filter_all {A} (P : A → Prop) `{∀ x, Decision (P x)} (l : list A) :
  (∀ x, x ∈ l → P x) → filter P l = l.
Proof.
  induction l as [|x l IH]; intros Hall; [done|].
  rewrite filter_cons_True by (apply Hall; left).
  f_equal. apply IH. intros y Hy. apply Hall. by right.
Qed.

Lemma deleteHike_fallback id s m :
  isInitialized s = true → db s = Some (MockDatabase m) →
  (deleteHike id s).1 = Resolved tt
  ∧ stored_rows (deleteHike id s).2
      = filter (λ r, Hike.id r ≠ id) (stored_rows s).
Proof.
  intros Hinit Hdb. unfold deleteHike, DatabaseService.deleteHike.
  pose proof (stored_rows_fallback deleteSQL [id] "delete hike" s m Hinit Hdb)
    as Hrows.
  rewrite (executeTransaction_fallback _ _ _ _ m) in * by done.
  rewrite executeSql_delete in *. simpl in *. split; [done|].
  rewrite Hrows.
  rewrite (readAll_writeAll_of_read (filter (λ r, Hike.id r ≠ id))) by done.
  unfold stored_rows. by rewrite Hdb.
Qed.

Lemma deleteAllHikes_fallback s m :
  isInitialized s = true → db s = Some (MockDatabase m) →
  (deleteAllHikes s).1 = Resolved tt
  ∧ stored_rows (deleteAllHikes s).2 = []
  ∧ isInitialized (deleteAllHikes s).2 = true
  ∧ ∃ m', db (deleteAllHikes s).2 = Some (MockDatabase m').
Proof.
  intros Hinit Hdb. unfold deleteAllHikes, DatabaseService.deleteAllHikes.
  pose proof (stored_rows_fallback deleteAllSQL [] "delete all hikes" s m
                Hinit Hdb) as Hrows.
  rewrite (executeTransaction_fallback _ _ _ _ m) in * by done.
  rewrite executeSql_deleteAll in *. simpl in *. split; [done|].
  split; [by rewrite Hrows, readAll_writeAll_nil|]. eauto.
Qed.

(** The listing of [getAllHikes] on the fallback store, by the lemmas on
    the sort: the stored rows, latest date first, rows of one time in the
    order of their insertion. *)
Lemma getAllHikes_ordering s m :
  isInitialized s = true → db s = Some (MockDatabase m) →
  Forall (λ r, is_Some (dateTime r)) (stored_rows s) →
  ∃ out,
    (getAllHikes s).1 = Resolved (HikeRecord <$> out)
    ∧ out ≡ₚ stored_rows s
    ∧ StronglySorted (not_before dateTime) out
    ∧ ∀ t, filter (λ r, dateTime r = Some t) out
           = filter (λ r, dateTime r = Some t) (stored_rows s).
Proof.
  intros Hinit Hdb Hdates. exists (Array.sort byDateDesc (stored_rows s)).
  split; [by apply (getAllHikes_fallback s m)|].
  split; [apply sort_perm|].
  split; [by apply (sort_sorted dateTime)|].
  intros t. apply sort_stable. intros x y Hx Hy.
  unfold Array.SortCompare, byDateDesc. fold (dateTime x) (dateTime y).
  rewrite Hx, Hy. simpl. lia.
Qed.

(** C7: on the fallback store, [deleteHike] with an id that no stored row
    has succeeds and leaves the stored rows as they were; [deleteAllHikes]
    succeeds and leaves no row, and [getAllHikes] then answers the empty
    list. *)
Theorem delete_absent_and_delete_all (id : value) (s : state) (m : mock) :
  isInitialized s = true → db s = Some (MockDatabase m) →
  ((∀ r, r ∈ stored_rows s → Hike.id r ≠ id) →
     (deleteHike id s).1 = Resolved tt
     ∧ stored_rows (deleteHike id s).2 = stored_rows s)
  ∧ (deleteAllHikes s).1 = Resolved tt
  ∧ stored_rows (deleteAllHikes s).2 = []
  ∧ (getAllHikes (deleteAllHikes s).2).1 = Resolved [].
Proof.
  intros Hinit Hdb. split.
  - intros Habsent.
    destruct (deleteHike_fallback id s m Hinit Hdb) as [Hres Hrows].
    split; [done|]. rewrite Hrows. by apply filter_all.
  - destruct (deleteAllHikes_fallback s m Hinit Hdb)
      as (Hres & Hrows & Hinit' & m' & Hdb').
    split; [done|]. split; [done|].
    rewrite (getAllHikes_fallback _ m') by done. by rewrite Hrows.
Qed.

End api_on_fallback.

(** C7 in a browser whose store holds [snowdon], for the id 9, which no
    stored row has. *)
Lemma delete_absent_and_delete_all_witness :
  let s := States.browser [Sample.snowdon] in
  let m := {| hasLocalStorage := true; memoryRows := [] |} in
  let id := VString "9" in
  isInitialized s = true
  ∧ db s = Some (MockDatabase m)
  ∧ (∀ r, r ∈ stored_rows s → Hike.id r ≠ id)
  ∧ (deleteHike (dates:=Iso.parse) id s).1 = Resolved tt
  ∧ stored_rows (deleteHike (dates:=Iso.parse) id s).2 = stored_rows s
  ∧ (deleteAllHikes (dates:=Iso.parse) s).1 = Resolved tt
  ∧ stored_rows (deleteAllHikes (dates:=Iso.parse) s).2 = []
  ∧ (getAllHikes (dates:=Iso.parse)
       (deleteAllHikes (dates:=Iso.parse) s).2).1 = Resolved [].
Proof.
  intros s m id.
  assert (∀ r, r ∈ stored_rows s → Hike.id r ≠ id) as Habsent.
  { intros r Hr. apply list_elem_of_singleton in Hr as ->. discriminate. }
  destruct (delete_absent_and_delete_all (dates:=Iso.parse) id s m
              eq_refl eq_refl) as [Hdelete Hall].
  split; [reflexivity|]. split; [reflexivity|]. split; [exact Habsent|].
  destruct (Hdelete Habsent) as [Hres Hrows].
  split; [exact Hres|]. split; [exact Hrows|]. exact Hall.
Defined.

(** ** Round trip and update: where the fallback store departs *)

(** C1, at a concrete store: with [snowdon] (dated 2024-06-01) stored,
    creating [benNevis] (dated 2024-05-01) stores it, and [getHikeById]
    with the id of [benNevis] then answers [snowdon]. *)
Theorem create_then_get_answers_other_row :
  let s := States.browser [Sample.snowdon] in
  let s' := (addHike (dates:=Iso.parse) Sample.benNevis
               "2024-06-03T08:00:00.000Z" s).2 in
  stored_rows s' = [Sample.snowdon; Sample.benNevis]
  ∧ (getHikeById (dates:=Iso.parse) (Hike.id Sample.benNevis) s').1
      = Resolved (Some (HikeRecord Sample.snowdon))
  ∧ Sample.snowdon ≠ Sample.benNevis.
Proof. repeat split; [reflexivity..|discriminate]. Qed.

(** C3, at a concrete store: [updateHike] with the edited [benNevis]
    succeeds and leaves, under the id 2, a row whose [createdAt] is the
    text [2] (the id), where it was the time of creation before. *)
Theorem update_overwrites_createdAt :
  let s := States.browser [Sample.snowdon; Sample.benNevis] in
  let s' := (updateHike (dates:=Iso.parse) Sample.benNevis_edited s).2 in
  (updateHike (dates:=Iso.parse) Sample.benNevis_edited s).1 = Resolved tt
  ∧ Hike.createdAt <$> stored_rows s
      = [VString "2024-06-02T08:00:00.000Z"; VString "2024-06-03T08:00:00.000Z"]
  ∧ Hike.createdAt <$> stored_rows s'
      = [VString "2024-06-02T08:00:00.000Z"; VString "2"]
  ∧ Hike.weather <$> stored_rows s' = [VString ""; VString "Sun"].
Proof. repeat split; reflexivity. Qed.

(** ** The executor *)

Section executor.
Context {dates : DateParser} {native : NativeEngine}.

Lemma executeTransaction_unbound sql params operation s :
  ¬ bound s →
  executeTransaction sql params operation s = (Failure NotInitialized, s).
Proof.
  unfold bound, executeTransaction. intros Hnot.
  destruct (isInitialized s); [|done].
  destruct (db s); [|done]. destruct Hnot. eauto.
Qed.

(** With a backend bound, the statement reaches a backend (the fallback
    store when the bound handle has no [transaction] function), a backend
    stays bound, and the result is the reply of that backend. *)
Lemma executeTransaction_bound sql params operation s :
  bound s →
  issued (executeTransaction sql params operation s).2
    = issued s ++ [(sql, params)]
  ∧ bound (executeTransaction sql params operation s).2
  ∧ ∃ r, (executeTransaction sql params operation s).1 = result_of r.
Proof.
  unfold bound, executeTransaction. intros [Hinit [d Hdb]].
  rewrite Hinit, Hdb. destruct d as [m|[[]]]; simpl.
  - destruct (executeSql sql params (m, localStorage s)) as [r [m' ls']].
    destruct r as [rows|message|message]; simpl; rewrite ?Hinit;
      (split; [done|]); (split; [eauto|]);
      [by exists (OnSuccess rows) | by exists (OnError message)
       | by exists (OnTransactionError message)].
  - destruct (engine_run sql params (engine s)) as [r e'].
    destruct r as [rows|message|message]; simpl; rewrite ?Hinit, ?Hdb;
      (split; [done|]); (split; [eauto|]);
      [by exists (OnSuccess rows) | by exists (OnError message)
       | by exists (OnTransactionError message)].
  - destruct (executeSql sql params _) as [r [m' ls']].
    destruct r as [rows|message|message]; simpl; rewrite ?Hinit;
      (split; [done|]); (split; [eauto|]);
      [by exists (OnSuccess rows) | by exists (OnError message)
       | by exists (OnTransactionError message)].
Qed.

Lemma bound_dec s : {bound s} + {¬ bound s}.
Proof.
  unfold bound. destruct (isInitialized s); [|right; by intros [? _]].
  destruct (db s); [left; eauto|right]. intros [_ []]. done.
Qed.

(** C6: [resetDatabase] runs the drop statement first. When the drop
    fails, the result of the reset is the result of the drop, and no
    statement other than the drop was handed to a backend; when it
    succeeds, the create statement follows and its result is the result of
    the reset. *)
Theorem reset_drop_then_create (s : state) :
  let drop := executeTransaction dropTableSQL [] "drop table" s in
  let reset := DatabaseService.resetDatabase s in
  (success drop.1 = false →
     reset = drop
     ∧ (issued reset.2 = issued s
        ∨ issued reset.2 = issued s ++ [(dropTableSQL, [])]))
  ∧ (success drop.1 = true →
     reset = DatabaseService.initDatabase drop.2
     ∧ issued reset.2
         = issued s ++ [(dropTableSQL, []); (createTableSQL, [])]).
Proof.
  intros drop reset. subst drop reset. unfold DatabaseService.resetDatabase.
  destruct (bound_dec s) as [Hb|Hb].
  - destruct (executeTransaction_bound dropTableSQL [] "drop table" s Hb)
      as (Hlog & Hb' & _).
    destruct (executeTransaction dropTableSQL [] "drop table" s)
      as [dropResult s1]. simpl in *.
    split; intros Hs; rewrite Hs; simpl; (split; [done|]).
    + by right.
    + unfold DatabaseService.initDatabase.
      destruct (executeTransaction_bound createTableSQL [] "initialization"
                  s1 Hb') as (Hlog' & _).
      rewrite Hlog', Hlog, <-app_assoc. done.
  - rewrite executeTransaction_unbound by done. simpl.
    split; [|done]. intros _. split; [done|by left].
Qed.

Lemma executeEach_bound stmts s :
  bound s →
  Forall (λ r, r ≠ Failure NotInitialized) (executeEach stmts s).1.
Proof.
  revert s. induction stmts as [|[[sql params] operation] stmts IH];
    intros s Hb; simpl; [constructor|].
  destruct (executeTransaction_bound sql params operation s Hb)
    as (_ & Hb' & r & Hr).
  destruct (executeTransaction sql params operation s) as [res s'].
  specialize (IH s' Hb'). destruct (executeEach stmts s'). simpl in *.
  constructor; [|done]. rewrite Hr. by destruct r.
Qed.

Lemma construct_bound rt ls e : bound (construct rt ls e).
Proof.
  unfold construct, initializeDatabase, bound.
  destruct (String.eqb (OS rt) "web"); [simpl; eauto|].
  destruct (openAttempt (SQLite rt)); simpl; eauto.
Qed.

(** C10: whatever the runtime, the stored data and the engine, the
    constructed service has a backend bound, and no statement of any run of
    [executeTransaction] on it gets the "Database not initialized"
    failure. *)
Theorem never_not_initialized
    (rt : runtime) (ls : option stored) (e : engine_state)
    (stmts : list (string * list value * string)) :
  isInitialized (construct rt ls e) = true
  ∧ is_Some (db (construct rt ls e))
  ∧ Forall (λ r, r ≠ Failure NotInitialized)
      (executeEach stmts (construct rt ls e)).1.
Proof.
  pose proof (construct_bound rt ls e) as Hb.
  split; [apply Hb|]. split; [apply Hb|]. by apply executeEach_bound.
Qed.
End executor.

(** C6 on a phone whose engine refuses the drop statement. *)
Lemma reset_drop_then_create_witness :
  let s := States.broken_phone in
  let drop :=
    executeTransaction (dates:=Iso.parse) dropTableSQL [] "drop table" s in
  let reset := DatabaseService.resetDatabase (dates:=Iso.parse) s in
  drop.1 = Failure (BackendError "disk I/O error")
  ∧ success drop.1 = false
  ∧ reset = drop
  ∧ (issued reset.2 = issued s
     ∨ issued reset.2 = issued s ++ [(dropTableSQL, [])]).
Proof.
  split; [reflexivity|]. split; [reflexivity|].
  exact (proj1 (reset_drop_then_create (dates:=Iso.parse) States.broken_phone)
           eq_refl).
Defined.

(** ** The defaults of [addHike] *)

Section defaults.
Context {dates : DateParser} {native : NativeEngine}.

Lemma addHike_issued (hike : hike) now s :
  bound s →
  issued (addHike hike now s).2
    = issued s ++ [(insertSQL, DatabaseService.addHike_params hike now)].
Proof.
  intros Hb. unfold addHike, DatabaseService.addHike.
  rewrite addHike_params_defaults.
  destruct (executeTransaction_bound insertSQL
              (DatabaseService.addHike_params hike now) "add hike" s Hb)
    as (Hlog & _).
  by destruct (executeTransaction insertSQL _ "add hike" s).
Qed.

Lemma inserted_field (hike : hike) now i field :
  text_fields !! i = Some field →
  DatabaseService.addHike_params hike now !! i = Some (field (inserted hike now))
  ∧ field (inserted hike now) = or_empty (field hike).
Proof.
  intros Hfield. rewrite addHike_params_row.
  do 11 (destruct i as [|i]; [by injection Hfield as <-|]).
  done.
Qed.

(** C8: whatever the hike, every parameter [addHike] passes with the insert
    statement is a string, and a field that is missing or [null] in the
    hike is passed as the empty string; the statement with these parameters
    is what a bound backend is handed; and on the fallback store the call
    succeeds and appends a row that has the empty string in every such
    field. *)
Theorem addHike_defaults (hike : hike) (now : string) (s : state) :
  let params := DatabaseService.addHike_params hike now in
  Forall is_text params
  ∧ (∀ i field, text_fields !! i = Some field →
       params !! i = Some (or_empty (field hike))
       ∧ (absent (field hike) → params !! i = Some (VString "")))
  ∧ (bound s →
       issued (addHike hike now s).2 = issued s ++ [(insertSQL, params)])
  ∧ (∀ m, isInitialized s = true → db s = Some (MockDatabase m) →
       facility_present (m, localStorage s) →
       ∃ row,
         (addHike hike now s).1 = Resolved tt
         ∧ stored_rows (addHike hike now s).2 = stored_rows s ++ [row]
         ∧ Hike.createdAt row = VString now
         ∧ ∀ i field, text_fields !! i = Some field →
             is_text (field row)
             ∧ (absent (field hike) → field row = VString "")).
Proof.
  intros params. subst params. split.
  { rewrite addHike_params_row. simpl.
    repeat (constructor; [first [apply or_empty_text | by eexists]|]).
    constructor. }
  split.
  { intros i field Hfield.
    destruct (inserted_field hike now i field Hfield) as [-> ->].
    split; [done|]. intros Habsent. by rewrite or_empty_absent. }
  split; [apply addHike_issued|].
  intros m Hinit Hdb Hfac. exists (inserted hike now).
  destruct (addHike_fallback hike now s m Hinit Hdb Hfac) as (Hres & Hrows & _).
  split; [done|]. split; [done|]. split; [done|].
  intros i field Hfield.
  destruct (inserted_field hike now i field Hfield) as [_ ->].
  split; [apply or_empty_text|apply or_empty_absent].
Qed.

(** Every closure the constructor binds finds its storage facility. *)
Lemma construct_facility rt ls e m :
  db (construct rt ls e) = Some (MockDatabase m) →
  facility_present (m, localStorage (construct rt ls e)).
Proof.
  unfold construct, initializeDatabase, facility_present.
  destruct (String.eqb (OS rt) "web"); [|destruct (openAttempt (SQLite rt))];
    simpl; intros [= <-]; simpl; try done;
    by intros ?%bool_decide_eq_true.
Qed.
End defaults.

(** C8 in a browser with an empty store, for a hike whose optional fields
    were left out or are [null]. *)
Lemma addHike_defaults_witness :
  let s := States.browser [] in
  let m := {| hasLocalStorage := true; memoryRows := [] |} in
  let now := "2024-07-02T09:00:00.000Z" in
  isInitialized s = true
  ∧ db s = Some (MockDatabase m)
  ∧ facility_present (m, localStorage s)
  ∧ ∃ row,
      (addHike (dates:=Iso.parse) Sample.sparse_hike now s).1 = Resolved tt
      ∧ stored_rows (addHike (dates:=Iso.parse) Sample.sparse_hike now s).2
          = stored_rows s ++ [row]
      ∧ Hike.createdAt row = VString now
      ∧ ∀ i field, text_fields !! i = Some field →
          is_text (field row)
          ∧ (absent (field Sample.sparse_hike) → field row = VString "").
Proof.
  split; [reflexivity|]. split; [reflexivity|].
  split; [by apply construct_facility|].
  pose proof (addHike_defaults (dates:=Iso.parse) Sample.sparse_hike
                "2024-07-02T09:00:00.000Z" (States.browser []))
    as (_ & _ & _ & Hstored).
  apply (Hstored {| hasLocalStorage := true; memoryRows := [] |});
    [reflexivity|reflexivity|by apply construct_facility].
Defined.

(** ** Scenarios *)

(** The scenario of the specification in a browser with an empty store:
    after the create, the listing is the one row with its time stamp and
    the empty string in the optional fields; after the delete, the listing
    is empty. *)
Example scenario_create_list_delete :
  let s0 := States.browser [] in
  let s1 := (addHike (dates:=Iso.parse) Sample.scenario_hike
               "2024-05-02T07:30:00.000Z" s0).2 in
  let s2 := (deleteHike (dates:=Iso.parse) (VString "1") s1).2 in
  (getAllHikes (dates:=Iso.parse) s1).1
    = Resolved
        [HikeRecord
           {| Hike.id := VString "1"; Hike.name := VString "Snowdon";
              Hike.location := VString "Wales";
              Hike.date := VString "2024-05-01";
              Hike.parking := VString "Yes"; Hike.length := VString "8.5";
              Hike.difficulty := VString "Hard";
              Hike.description := VString ""; Hike.weather := VString "";
              Hike.rating := VString ""; Hike.companions := VString "";
              Hike.createdAt := VString "2024-05-02T07:30:00.000Z" |}]
  ∧ (getAllHikes (dates:=Iso.parse) s2).1 = Resolved [].
Proof. split; reflexivity. Qed.

(** Without SQLite and without [localStorage] the rows live in the closure:
    two creates, then the listing (latest date first), the count and a
    reset. *)
Example scenario_in_memory :
  let s0 := States.in_memory in
  let s1 := (addHike (dates:=Iso.parse) Sample.benNevis
               "2024-06-03T08:00:00.000Z" s0).2 in
  let s2 := (addHike (dates:=Iso.parse) Sample.snowdon
               "2024-06-02T08:00:00.000Z" s1).2 in
  let s3 := (resetDatabase (dates:=Iso.parse) s2).2 in
  localStorage s2 = None
  ∧ (getAllHikes (dates:=Iso.parse) s2).1
      = Resolved [HikeRecord Sample.snowdon; HikeRecord Sample.benNevis]
  ∧ (DatabaseService.getDatabaseStats (dates:=Iso.parse) s2).1 = Success 2%nat
  ∧ (getAllHikes (dates:=Iso.parse) s3).1 = Resolved [].
Proof. repeat split; reflexivity. Qed.

(** A handle without a [transaction] function (the newer SQLite module) is
    replaced by the fallback store at the first statement. *)
Example scenario_rebind :
  let rt := {| OS := "ios";
               SQLite :=
                 Some {| openDatabase := None;
                         openDatabaseSync :=
                           Some (Returns (Some {| hasTransaction := false |})) |} |} in
  let s0 := construct (native:=Engines.broken) rt (Some NoItem) tt in
  let s1 := (initDatabase (dates:=Iso.parse) s0).2 in
  db s0 = Some (NativeDatabase {| hasTransaction := false |})
  ∧ (initDatabase (dates:=Iso.parse) s0).1 = Resolved tt
  ∧ db s1 = Some (MockDatabase {| hasLocalStorage := true; memoryRows := [] |}).
Proof. repeat split; reflexivity. Qed.

(** * Further properties of the storage module *)

(** ** The operations on the fallback store, one by one *)

Section fallback_operations.
Context {dates : DateParser} {native : NativeEngine}.

Lemma executeSql_facility sql params st :
  facility_present st → facility_present (executeSql sql params st).2.
Proof.
  intros Hfac. unfold executeSql.
  repeat case_match; simpl; first [done | by apply facility_present_writeAll].
Qed.

(** A statement of the service on the fallback store: the reply and the
    rows are those of [executeSql], and the service stays on the fallback
    store. *)
Lemma executeTransaction_on sql params operation s :
  on_fallback s →
  ∃ m, db s = Some (MockDatabase m)
    ∧ (executeTransaction sql params operation s).1
        = result_of (executeSql sql params (m, localStorage s)).1
    ∧ stored_rows (executeTransaction sql params operation s).2
        = readAll (executeSql sql params (m, localStorage s)).2
    ∧ on_fallback (executeTransaction sql params operation s).2
    ∧ engine (executeTransaction sql params operation s).2 = engine s.
Proof.
  intros (Hinit & m & Hdb & Hfac). exists m. split; [done|].
  pose proof (stored_rows_fallback sql params operation s m Hinit Hdb) as Hrows.
  pose proof (executeSql_facility sql params _ Hfac) as Hfac'.
  rewrite (executeTransaction_fallback _ _ _ _ m) in * by done.
  split; [done|]. split; [done|]. split; [|done].
  split; [done|]. eexists. split; [done|].
  by destruct (executeSql sql params (m, localStorage s)) as [r [m' ls']].
Qed.

Lemma stored_rows_on s m :
  db s = Some (MockDatabase m) → stored_rows s = readAll (m, localStorage s).
Proof. intros Hdb. unfold stored_rows. by rewrite Hdb. Qed.

Lemma addHike_on (hike : hike) now s :
  on_fallback s →
  (addHike hike now s).1 = Resolved tt
  ∧ stored_rows (addHike hike now s).2 = stored_rows s ++ [inserted hike now]
  ∧ on_fallback (addHike hike now s).2.
Proof.
  intros Hon. unfold addHike, DatabaseService.addHike.
  rewrite addHike_params_defaults.
  destruct (executeTransaction_on insertSQL
              (DatabaseService.addHike_params hike now) "add hike" s Hon)
    as (m & Hdb & Hres & Hrows & Hon' & _).
  destruct Hon as (_ & m0 & Hdb0 & Hfac). simplify_eq.
  destruct (executeTransaction insertSQL _ "add hike" s) as [res s'].
  rewrite executeSql_insert in *. simpl in *. subst res.
  split; [done|]. split; [|done].
  rewrite Hrows, readAll_writeAll, (stored_rows_on s m0) by done.
  f_equal. rewrite addHike_params_row. reflexivity.
Qed.

Lemma deleteHike_on id s :
  on_fallback s →
  (deleteHike id s).1 = Resolved tt
  ∧ stored_rows (deleteHike id s).2
      = filter (λ r, Hike.id r ≠ id) (stored_rows s)
  ∧ on_fallback (deleteHike id s).2.
Proof.
  intros Hon. unfold deleteHike, DatabaseService.deleteHike.
  destruct (executeTransaction_on deleteSQL [id] "delete hike" s Hon)
    as (m & Hdb & Hres & Hrows & Hon' & _).
  destruct (executeTransaction deleteSQL [id] "delete hike" s) as [res s'].
  rewrite executeSql_delete in *. simpl in *. subst res.
  split; [done|]. split; [|done].
  rewrite Hrows, (stored_rows_on s m) by done.
  by rewrite (readAll_writeAll_of_read (filter (λ r, Hike.id r ≠ id))).
Qed.

Lemma updateHike_on (hike : hike) s :
  on_fallback s →
  (updateHike hike s).1 = Resolved tt
  ∧ stored_rows (updateHike hike s).2
      = updated (DatabaseService.updateHike_params hike) <$> stored_rows s
  ∧ on_fallback (updateHike hike s).2.
Proof.
  intros Hon. unfold updateHike, DatabaseService.updateHike.
  destruct (executeTransaction_on updateSQL
              (DatabaseService.updateHike_params hike) "update hike" s Hon)
    as (m & Hdb & Hres & Hrows & Hon' & _).
  destruct (executeTransaction updateSQL _ "update hike" s) as [res s'].
  rewrite executeSql_update in *. simpl in *. subst res.
  split; [done|]. split; [|done].
  rewrite Hrows, (stored_rows_on s m) by done.
  by rewrite (readAll_writeAll_of_read
                (fmap (updated (DatabaseService.updateHike_params hike)))).
Qed.


Lemma initDatabase_on s :
  on_fallback s →
  (initDatabase s).1 = Resolved tt
  ∧ stored_rows (initDatabase s).2 = stored_rows s
  ∧ on_fallback (initDatabase s).2.
Proof.
  intros Hon. unfold initDatabase, DatabaseService.initDatabase.
  destruct (executeTransaction_on createTableSQL [] "initialization" s Hon)
    as (m & Hdb & Hres & Hrows & Hon' & _).
  destruct (executeTransaction createTableSQL [] "initialization" s)
    as [res s'].
  rewrite executeSql_createTable in *. simpl in *. subst res.
  split; [done|]. split; [|done]. by rewrite Hrows, (stored_rows_on s m).
Qed.

Lemma getAllHikes_on s :
  on_fallback s →
  (getAllHikes s).1
    = Resolved (HikeRecord <$> Array.sort byDateDesc (stored_rows s))
  ∧ stored_rows (getAllHikes s).2 = stored_rows s
  ∧ on_fallback (getAllHikes s).2.
Proof.
  intros Hon. unfold getAllHikes, DatabaseService.getAllHikes.
  destruct (executeTransaction_on selectAllSQL [] "get all hikes" s Hon)
    as (m & Hdb & Hres & Hrows & Hon' & _).
  destruct (executeTransaction selectAllSQL [] "get all hikes" s) as [res s'].
  rewrite executeSql_selectAll in *. simpl in *. subst res. simpl.
  rewrite Hrows, (stored_rows_on s m) by done. done.
Qed.

Lemma getHikeById_on id s :
  on_fallback s →
  (getHikeById id s).1
    = Resolved (head (HikeRecord <$> Array.sort byDateDesc (stored_rows s)))
  ∧ stored_rows (getHikeById id s).2 = stored_rows s
  ∧ on_fallback (getHikeById id s).2.
Proof.
  intros Hon. unfold getHikeById, DatabaseService.getHikeById.
  destruct (executeTransaction_on selectByIdSQL [id] "get hike by id" s Hon)
    as (m & Hdb & Hres & Hrows & Hon' & _).
  destruct (executeTransaction selectByIdSQL [id] "get hike by id" s)
    as [res s'].
  rewrite executeSql_selectById in *. simpl in *. subst res. simpl.
  rewrite Hrows, (stored_rows_on s m) by done. done.
Qed.

Lemma getDatabaseStats_on s :
  on_fallback s →
  (DatabaseService.getDatabaseStats s).1 = Success (length (stored_rows s))
  ∧ stored_rows (DatabaseService.getDatabaseStats s).2 = stored_rows s
  ∧ on_fallback (DatabaseService.getDatabaseStats s).2.
Proof.
  intros Hon. unfold DatabaseService.getDatabaseStats.
  destruct (executeTransaction_on countSQL [] "get stats" s Hon)
    as (m & Hdb & Hres & Hrows & Hon' & _).
  destruct (executeTransaction countSQL [] "get stats" s) as [res s'].
  rewrite executeSql_count in *. simpl in *. subst res. simpl.
  rewrite Hrows, (stored_rows_on s m) by done. done.
Qed.

Lemma resetDatabase_on s :
  on_fallback s →
  (resetDatabase s).1 = Resolved tt
  ∧ stored_rows (resetDatabase s).2 = []
  ∧ on_fallback (resetDatabase s).2.
Proof.
  intros Hon. unfold resetDatabase, DatabaseService.resetDatabase.
  destruct (executeTransaction_on dropTableSQL [] "drop table" s Hon)
    as (m & Hdb & Hres & Hrows & Hon' & _).
  destruct (executeTransaction dropTableSQL [] "drop table" s) as [res s1].
  rewrite executeSql_dropTable in *. simpl in *. subst res. simpl.
  rewrite readAll_writeAll_nil in Hrows.
  unfold DatabaseService.initDatabase.
  destruct (executeTransaction_on createTableSQL [] "initialization" s1 Hon')
    as (m1 & Hdb1 & Hres1 & Hrows1 & Hon1 & _).
  destruct (executeTransaction createTableSQL [] "initialization" s1)
    as [res s2].
  rewrite executeSql_createTable in *. simpl in *. subst res.
  split; [done|]. split; [|done].
  by rewrite Hrows1, <-(stored_rows_on s1 m1).
Qed.

(** The constructor leaves the service on the fallback store whenever it
    binds one. *)
Lemma construct_on rt ls e m :
  db (construct rt ls e) = Some (MockDatabase m) →
  on_fallback (construct rt ls e).
Proof.
  intros Hdb. split; [apply construct_bound|].
  exists m. split; [done|]. by apply construct_facility.
Qed.
End fallback_operations.

(** ** What the operations do together *)

Section service_properties.
Context {dates : DateParser} {native : NativeEngine}.

(** A row that compares as later than every row of the list comes first,
    also when it was inserted last. *)
Lemma sort_snoc_first {A} (comparefn : A → A → number) l x :
  (∀ y, y ∈ l → 0 < Array.SortCompare comparefn y x) →
  Array.sort comparefn (l ++ [x]) = x :: Array.sort comparefn l.
Proof.
  induction l as [|y l IH]; intros Hlater; simpl; [done|].
  rewrite IH by (intros z Hz; apply Hlater; by right). simpl.
  specialize (Hlater y (list_elem_of_here _ _)).
  apply Z.ltb_lt in Hlater. by rewrite Hlater.
Qed.

(** X1: on the fallback store, when the date of the created hike is later
    than every stored date, [getHikeById] with its id answers the row just
    created (the hike with its defaults and time stamp). *)
Theorem create_then_get_when_latest (hike : hike) (now : string) (s : state)
    (t : Z) :
  on_fallback s →
  dateTime (inserted hike now) = Some t →
  (∀ r, r ∈ stored_rows s → ∃ tr, dateTime r = Some tr ∧ tr < t) →
  (getHikeById (Hike.id (inserted hike now)) (addHike hike now s).2).1
    = Resolved (Some (HikeRecord (inserted hike now))).
Proof.
  intros Hon Ht Hlater.
  destruct (addHike_on hike now s Hon) as (_ & Hrows & Hon').
  destruct (getHikeById_on (Hike.id (inserted hike now)) _ Hon') as (-> & _).
  rewrite Hrows, sort_snoc_first; [done|].
  intros y Hy. destruct (Hlater y Hy) as (tr & Hy' & Hlt).
  unfold Array.SortCompare, byDateDesc.
  fold (dateTime y) (dateTime (inserted hike now)).
  rewrite Ht, Hy'. simpl. lia.
Qed.

(** X2: on the fallback store the statistics count the stored rows; the
    listing has as many records; and a create raises the count by one,
    whatever ids are stored already. *)
Theorem stats_count_stored_rows (hike : hike) (now : string) (s : state) :
  on_fallback s →
  (DatabaseService.getDatabaseStats s).1 = Success (length (stored_rows s))
  ∧ (∃ out, (getAllHikes s).1 = Resolved out
            ∧ length out = length (stored_rows s))
  ∧ (DatabaseService.getDatabaseStats (addHike hike now s).2).1
      = Success (S (length (stored_rows s))).
Proof.
  intros Hon.
  destruct (getDatabaseStats_on s Hon) as (Hstats & _).
  destruct (getAllHikes_on s Hon) as (Hall & _).
  destruct (addHike_on hike now s Hon) as (_ & Hrows & Hon').
  destruct (getDatabaseStats_on _ Hon') as (Hstats' & _).
  split; [done|]. split.
  - eexists. split; [done|].
    by rewrite length_fmap, (Permutation_length (sort_perm _ _)).
  - rewrite Hstats', Hrows, length_app. simpl. f_equal. lia.
Qed.

(** X3: on the fallback store, deleting by the id of a hike just created
    restores the stored rows, provided no stored row had that id. *)
Theorem delete_undoes_create (hike : hike) (now : string) (s : state) :
  on_fallback s →
  (∀ r, r ∈ stored_rows s → Hike.id r ≠ Hike.id (inserted hike now)) →
  stored_rows
    (deleteHike (Hike.id (inserted hike now)) (addHike hike now s).2).2
    = stored_rows s.
Proof.
  intros Hon Hfresh.
  destruct (addHike_on hike now s Hon) as (_ & Hrows & Hon').
  destruct (deleteHike_on (Hike.id (inserted hike now)) _ Hon') as (_ & -> & _).
  rewrite Hrows, filter_app, filter_all by done.
  rewrite filter_cons_False by (intros Hne; by apply Hne).
  by rewrite filter_nil, app_nil_r.
Qed.


Lemma updated_id params r : Hike.id (updated params r) = Hike.id r.
Proof. unfold updated. by case_match. Qed.

Lemma updated_idemp params r :
  updated params (updated params r) = updated params r.
Proof.
  unfold updated. destruct (strict_eq (Hike.id r) (at_last params)) eqn:Hid;
    simpl; by rewrite Hid.
Qed.

(** X5: on the fallback store [updateHike] keeps the ids of the rows, in
    their order; afterwards every row with the id of the hike carries the
    ten fields of the hike; and the same update once more changes
    nothing. *)
Theorem update_sets_fields (hike : hike) (s : state) :
  on_fallback s →
  Hike.id <$> stored_rows (updateHike hike s).2 = Hike.id <$> stored_rows s
  ∧ (∀ r, r ∈ stored_rows (updateHike hike s).2 →
       Hike.id r = Hike.id hike →
       Hike.name r = Hike.name hike
       ∧ Hike.location r = Hike.location hike
       ∧ Hike.date r = Hike.date hike
       ∧ Hike.parking r = Hike.parking hike
       ∧ Hike.length r = Hike.length hike
       ∧ Hike.difficulty r = Hike.difficulty hike
       ∧ Hike.description r = Hike.description hike
       ∧ Hike.weather r = Hike.weather hike
       ∧ Hike.rating r = Hike.rating hike
       ∧ Hike.companions r = Hike.companions hike)
  ∧ stored_rows (updateHike hike (updateHike hike s).2).2
      = stored_rows (updateHike hike s).2.
Proof.
  intros Hon.
  destruct (updateHike_on hike s Hon) as (_ & Hrows & Hon').
  destruct (updateHike_on hike _ Hon') as (_ & Hrows' & _).
  rewrite Hrows', Hrows. split.
  { rewrite <-list_fmap_compose. apply list_fmap_ext.
    intros i r _. apply updated_id. }
  split.
  - intros r Hr Hid. apply list_elem_of_fmap in Hr as (r0 & -> & _).
    rewrite updated_id in Hid. unfold updated, strict_eq.
    rewrite bool_decide_eq_true_2 by done. by repeat split.
  - rewrite <-list_fmap_compose. apply list_fmap_ext.
    intros i r _. apply updated_idemp.
Qed.

(** X6: on the fallback store the operations that only read
    ([initDatabase], [getAllHikes], [getHikeById], [getDatabaseStats]) leave
    the stored rows as they are, in their order of insertion; so does a
    second [initDatabase]. *)
Theorem reads_keep_rows (id : value) (s : state) :
  on_fallback s →
  (initDatabase s).1 = Resolved tt
  ∧ stored_rows (initDatabase s).2 = stored_rows s
  ∧ stored_rows (initDatabase (initDatabase s).2).2 = stored_rows s
  ∧ stored_rows (getAllHikes s).2 = stored_rows s
  ∧ stored_rows (getHikeById id s).2 = stored_rows s
  ∧ stored_rows (DatabaseService.getDatabaseStats s).2 = stored_rows s.
Proof.
  intros Hon.
  destruct (initDatabase_on s Hon) as (Hres & Hrows & Hon').
  destruct (initDatabase_on _ Hon') as (_ & Hrows' & _).
  destruct (getAllHikes_on s Hon) as (_ & Hall & _).
  destruct (getHikeById_on id s Hon) as (_ & Hget & _).
  destruct (getDatabaseStats_on s Hon) as (_ & Hstats & _).
  rewrite Hrows', Hrows. done.
Qed.

(** X7: on the fallback store [resetDatabase] succeeds and leaves no row:
    the listing is empty and the count is zero afterwards. *)
Theorem reset_empties_store (s : state) :
  on_fallback s →
  (resetDatabase s).1 = Resolved tt
  ∧ stored_rows (resetDatabase s).2 = []
  ∧ (getAllHikes (resetDatabase s).2).1 = Resolved []
  ∧ (DatabaseService.getDatabaseStats (resetDatabase s).2).1 = Success 0%nat.
Proof.
  intros Hon.
  destruct (resetDatabase_on s Hon) as (Hres & Hrows & Hon').
  destruct (getAllHikes_on _ Hon') as (Hall & _).
  destruct (getDatabaseStats_on _ Hon') as (Hstats & _).
  rewrite Hall, Hstats, Hrows. done.
Qed.
End service_properties.

(** ** The executor and the choice of the backend *)

Section executor_properties.
Context {dates : DateParser} {native : NativeEngine}.



(** X9: the choice of the backend by the constructor. In a browser the
    fallback store is bound whatever the SQLite module offers; when
    [openDatabase] is a function, [openDatabaseSync] plays no part (it is
    not tried when [openDatabase] throws or returns nothing); a native
    handle is bound only outside the browser and only when one of the two
    entry points returned it; and the constructor touches neither the
    stored data nor the engine and issues no statement. *)
Theorem backend_selection
    (rt : runtime) (ls : option stored) (e : engine_state) :
  (OS rt = "web" →
     db (construct rt ls e) = Some (MockDatabase (createMockDatabase ls)))
  ∧ (∀ os o sync sync',
       construct
         {| OS := os;
            SQLite := Some {| openDatabase := Some o;
                              openDatabaseSync := sync |} |} ls e
       = construct
           {| OS := os;
              SQLite := Some {| openDatabase := Some o;
                                openDatabaseSync := sync' |} |} ls e)
  ∧ (∀ h, db (construct rt ls e) = Some (NativeDatabase h) →
       OS rt ≠ "web"
       ∧ ∃ sqlite, SQLite rt = Some sqlite
           ∧ (openDatabase sqlite = Some (Returns (Some h))
              ∨ (openDatabase sqlite = None
                 ∧ openDatabaseSync sqlite = Some (Returns (Some h)))))
  ∧ localStorage (construct rt ls e) = ls
  ∧ engine (construct rt ls e) = e
  ∧ issued (construct rt ls e) = [].
Proof.
  split.
  { intros Hweb. unfold construct, initializeDatabase. by rewrite Hweb. }
  split.
  { intros os o sync sync'. unfold construct, initializeDatabase.
    by destruct (String.eqb os "web"). }
  split.
  { intros h. unfold construct, initializeDatabase.
    destruct (String.eqb (OS rt) "web") eqn:Hos; simpl; [done|].
    apply String.eqb_neq in Hos.
    destruct (SQLite rt) as [[[[|[h'|]]|] [[|[h''|]]|]]|] eqn:Hsql; simpl;
      intros [= <-]; (split; [done|]); eexists; (split; [done|]); simpl;
      first [by left | by right]. }
  unfold construct, initializeDatabase.
  destruct (String.eqb (OS rt) "web"); [done|].
  by destruct (openAttempt (SQLite rt)).
Qed.

(** X10: a statement on a native handle with a [transaction] function goes
    to the engine with its text and parameters as they are; the result is
    the reply of the engine (a failure carries the message of the engine),
    and neither the bound handle nor the stored data of the fallback store
    changes. *)
Theorem native_passthrough
    (sql : string) (params : list value) (operation : string) (s : state)
    (h : handle) :
  on_native s h → hasTransaction h = true →
  (executeTransaction sql params operation s).1
    = result_of (engine_run sql params (engine s)).1
  ∧ engine (executeTransaction sql params operation s).2
      = (engine_run sql params (engine s)).2
  ∧ db (executeTransaction sql params operation s).2 = db s
  ∧ localStorage (executeTransaction sql params operation s).2
      = localStorage s
  ∧ issued (executeTransaction sql params operation s).2
      = issued s ++ [(sql, params)].
Proof.
  intros [Hinit Hdb] Htx. unfold executeTransaction.
  rewrite Hinit, Hdb. simpl. rewrite Htx. simpl.
  destruct (engine_run sql params (engine s)) as [r e'].
  destruct r; simpl; rewrite ?Htx; simpl; rewrite ?Hdb; by repeat split.
Qed.

Lemma native_fields sql params operation s h :
  on_native s h → hasTransaction h = true →
  (executeTransaction sql params operation s).1
    = result_of (engine_run sql params (engine s)).1
  ∧ engine (executeTransaction sql params operation s).2
      = (engine_run sql params (engine s)).2.
Proof.
  intros [Hinit Hdb] Htx. unfold executeTransaction.
  rewrite Hinit, Hdb. simpl. rewrite Htx. simpl.
  destruct (engine_run sql params (engine s)) as [r e'].
  destruct r; simpl; rewrite ?Htx; simpl; by split.
Qed.

(** X11: the exported functions hand on what the engine answers: on a
    native handle [getAllHikes] resolves to the rows of the engine as they
    come (no sorting by the service), and [deleteHike] rejects with the
    message of the engine when the engine reports an error. *)
Theorem native_answers_reach_the_caller (id : value) (s : state) (h : handle) :
  on_native s h → hasTransaction h = true →
  (∀ rows, (engine_run selectAllSQL [] (engine s)).1 = OnSuccess rows →
     (getAllHikes s).1 = Resolved rows)
  ∧ (∀ message, (engine_run deleteSQL [id] (engine s)).1 = OnError message →
       (deleteHike id s).1 = Rejected message)
  ∧ (∀ message,
       (engine_run deleteSQL [id] (engine s)).1 = OnTransactionError message →
       (deleteHike id s).1 = Rejected message).
Proof.
  intros Hon Htx.
  destruct (native_fields selectAllSQL [] "get all hikes" s h Hon Htx) as [Hall _].
  destruct (native_fields deleteSQL [id] "delete hike" s h Hon Htx) as [Hdel _].
  unfold getAllHikes, deleteHike, DatabaseService.getAllHikes,
    DatabaseService.deleteHike.
  destruct (executeTransaction selectAllSQL [] "get all hikes" s) as [r1 s1].
  destruct (executeTransaction deleteSQL [id] "delete hike" s) as [r2 s2].
  simpl in *. subst r1 r2.
  repeat split; intros x Hx; by rewrite Hx.
Qed.

(** X12: a statement on a handle without a [transaction] function runs on
    a new fallback store over the storage of the window; the engine is not
    asked, and the service is on the fallback store from then on. *)
Theorem rebind_to_fallback
    (sql : string) (params : list value) (operation : string) (s : state)
    (h : handle) :
  on_native s h → hasTransaction h = false →
  (executeTransaction sql params operation s).1
    = result_of (executeSql sql params
                   (createMockDatabase (localStorage s), localStorage s)).1
  ∧ stored_rows (executeTransaction sql params operation s).2
      = readAll (executeSql sql params
                   (createMockDatabase (localStorage s), localStorage s)).2
  ∧ on_fallback (executeTransaction sql params operation s).2
  ∧ engine (executeTransaction sql params operation s).2 = engine s.
Proof.
  intros [Hinit Hdb] Htx.
  assert (facility_present (createMockDatabase (localStorage s), localStorage s))
    as Hfac.
  { unfold facility_present, createMockDatabase. simpl.
    by intros ?%bool_decide_eq_true. }
  pose proof (executeSql_facility sql params _ Hfac) as Hfac'.
  unfold executeTransaction. rewrite Hinit, Hdb. simpl. rewrite Htx. simpl.
  destruct (executeSql sql params _) as [r [m' ls']].
  unfold stored_rows, on_fallback. destruct r; simpl; rewrite ?Hinit; eauto 8.
Qed.

(** X13: the rows the fallback store keeps in [localStorage] are there for
    a service constructed anew (a reload of the page), wherever the
    constructor binds the fallback store; without a storage facility the
    new service starts with no rows. *)
Theorem rows_survive_reconstruction
    (rt : runtime) (e' : engine_state) (s : state) (m : mock) :
  db s = Some (MockDatabase m) →
  hasLocalStorage m = true → is_Some (localStorage s) →
  OS rt = "web" ∨ openAttempt (SQLite rt) = None →
  stored_rows (construct rt (localStorage s) e') = stored_rows s
  ∧ stored_rows (construct rt None e') = [].
Proof.
  intros Hdb HLS [it Hls] Hrt.
  assert (∀ ls, db (construct rt ls e')
                = Some (MockDatabase (createMockDatabase ls))
              ∧ localStorage (construct rt ls e') = ls) as Hnew.
  { intros ls. unfold construct, initializeDatabase.
    destruct Hrt as [->| ->]; simpl; [done|].
    by destruct (String.eqb (OS rt) "web"). }
  unfold stored_rows at 1 3.
  destruct (Hnew (localStorage s)) as [-> ->].
  destruct (Hnew None) as [-> ->].
  rewrite (stored_rows_on s m Hdb), Hls. unfold readAll. simpl.
  by rewrite HLS.
Qed.


(** X15: the defaults the exported [addHike] applies before it calls the
    service change nothing: for every hike, result and state are those of
    the method of the service on the hike as given. *)
Theorem addHike_defaults_twice (hike : hike) (now : string) (s : state) :
  addHike hike now s
    = (settle (λ _, tt) (DatabaseService.addHike hike now s).1,
       (DatabaseService.addHike hike now s).2).
Proof.
  unfold addHike, DatabaseService.addHike. rewrite addHike_params_defaults.
  by destruct (executeTransaction insertSQL _ "add hike" s).
Qed.
End executor_properties.

(** ** The further properties at sample states *)

Lemma browser_on rows : on_fallback (States.browser rows).
Proof. by apply (construct_on _ _ _ {| hasLocalStorage := true; memoryRows := [] |}). Qed.

(** X1 in a browser that holds [benNevis], for [snowdon], whose date is
    the later one. *)
Lemma create_then_get_when_latest_witness :
  let s := States.browser [Sample.benNevis] in
  let now := "2024-06-02T08:00:00.000Z" in
  let t := 1717200000000 in
  on_fallback s
  ∧ dateTime (dates:=Iso.parse) (inserted Sample.snowdon now) = Some t
  ∧ (∀ r, r ∈ stored_rows s →
       ∃ tr, dateTime (dates:=Iso.parse) r = Some tr ∧ tr < t)
  ∧ (getHikeById (dates:=Iso.parse) (Hike.id (inserted Sample.snowdon now))
       (addHike (dates:=Iso.parse) Sample.snowdon now s).2).1
      = Resolved (Some (HikeRecord (inserted Sample.snowdon now))).
Proof.
  intros s now t.
  assert (on_fallback s) as Hon by apply browser_on.
  assert (dateTime (dates:=Iso.parse) (inserted Sample.snowdon now) = Some t)
    as Ht by reflexivity.
  assert (∀ r, r ∈ stored_rows s →
            ∃ tr, dateTime (dates:=Iso.parse) r = Some tr ∧ tr < t) as Hlater.
  { intros r Hr. apply list_elem_of_singleton in Hr as ->.
    eexists. split; reflexivity. }
  split; [exact Hon|]. split; [exact Ht|]. split; [exact Hlater|].
  exact (create_then_get_when_latest (dates:=Iso.parse) Sample.snowdon now s t
           Hon Ht Hlater).
Defined.

(** X2 in a browser that holds two rows. *)
Lemma stats_count_stored_rows_witness :
  let s := States.browser [Sample.snowdon; Sample.benNevis] in
  let now := "2024-06-04T08:00:00.000Z" in
  on_fallback s
  ∧ (DatabaseService.getDatabaseStats (dates:=Iso.parse) s).1
      = Success (length (stored_rows s))
  ∧ (∃ out, (getAllHikes (dates:=Iso.parse) s).1 = Resolved out
            ∧ length out = length (stored_rows s))
  ∧ (DatabaseService.getDatabaseStats (dates:=Iso.parse)
       (addHike (dates:=Iso.parse) Sample.glenNevis now s).2).1
      = Success (S (length (stored_rows s))).
Proof.
  intros s now. split; [apply browser_on|].
  apply (stats_count_stored_rows (dates:=Iso.parse) Sample.glenNevis now s).
  apply browser_on.
Defined.

(** X3 in a browser that holds [snowdon], for [benNevis]. *)
Lemma delete_undoes_create_witness :
  let s := States.browser [Sample.snowdon] in
  let now := "2024-06-03T08:00:00.000Z" in
  on_fallback s
  ∧ (∀ r, r ∈ stored_rows s →
       Hike.id r ≠ Hike.id (inserted Sample.benNevis now))
  ∧ stored_rows
      (deleteHike (dates:=Iso.parse) (Hike.id (inserted Sample.benNevis now))
         (addHike (dates:=Iso.parse) Sample.benNevis now s).2).2
      = stored_rows s.
Proof.
  intros s now.
  assert (∀ r, r ∈ stored_rows s →
            Hike.id r ≠ Hike.id (inserted Sample.benNevis now)) as Hfresh.
  { intros r Hr. apply list_elem_of_singleton in Hr as ->. discriminate. }
  split; [apply browser_on|]. split; [exact Hfresh|].
  exact (delete_undoes_create (dates:=Iso.parse) Sample.benNevis now s
           (browser_on _) Hfresh).
Defined.


(** X5 in a browser that holds two rows, for the edited [benNevis]. *)
Lemma update_sets_fields_witness :
  let s := States.browser [Sample.snowdon; Sample.benNevis] in
  let hike := Sample.benNevis_edited in
  on_fallback s
  ∧ Hike.id <$> stored_rows (updateHike (dates:=Iso.parse) hike s).2
      = Hike.id <$> stored_rows s
  ∧ (∀ r, r ∈ stored_rows (updateHike (dates:=Iso.parse) hike s).2 →
       Hike.id r = Hike.id hike →
       Hike.name r = Hike.name hike
       ∧ Hike.location r = Hike.location hike
       ∧ Hike.date r = Hike.date hike
       ∧ Hike.parking r = Hike.parking hike
       ∧ Hike.length r = Hike.length hike
       ∧ Hike.difficulty r = Hike.difficulty hike
       ∧ Hike.description r = Hike.description hike
       ∧ Hike.weather r = Hike.weather hike
       ∧ Hike.rating r = Hike.rating hike
       ∧ Hike.companions r = Hike.companions hike)
  ∧ stored_rows
      (updateHike (dates:=Iso.parse) hike
         (updateHike (dates:=Iso.parse) hike s).2).2
      = stored_rows (updateHike (dates:=Iso.parse) hike s).2.
Proof.
  intros s hike. split; [apply browser_on|].
  apply (update_sets_fields (dates:=Iso.parse) hike s). apply browser_on.
Defined.

(** X6 in a browser that holds two rows, the earlier date first. *)
Lemma reads_keep_rows_witness :
  let s := States.browser [Sample.benNevis; Sample.snowdon] in
  let id := VString "2" in
  on_fallback s
  ∧ (initDatabase (dates:=Iso.parse) s).1 = Resolved tt
  ∧ stored_rows (initDatabase (dates:=Iso.parse) s).2 = stored_rows s
  ∧ stored_rows
      (initDatabase (dates:=Iso.parse)
         (initDatabase (dates:=Iso.parse) s).2).2 = stored_rows s
  ∧ stored_rows (getAllHikes (dates:=Iso.parse) s).2 = stored_rows s
  ∧ stored_rows (getHikeById (dates:=Iso.parse) id s).2 = stored_rows s
  ∧ stored_rows (DatabaseService.getDatabaseStats (dates:=Iso.parse) s).2
      = stored_rows s.
Proof.
  intros s id. split; [apply browser_on|].
  apply (reads_keep_rows (dates:=Iso.parse) id s). apply browser_on.
Defined.

(** X7 in a browser that holds two rows. *)
Lemma reset_empties_store_witness :
  let s := States.browser [Sample.snowdon; Sample.benNevis] in
  on_fallback s
  ∧ (resetDatabase (dates:=Iso.parse) s).1 = Resolved tt
  ∧ stored_rows (resetDatabase (dates:=Iso.parse) s).2 = []
  ∧ (getAllHikes (dates:=Iso.parse) (resetDatabase (dates:=Iso.parse) s).2).1
      = Resolved []
  ∧ (DatabaseService.getDatabaseStats (dates:=Iso.parse)
       (resetDatabase (dates:=Iso.parse) s).2).1 = Success 0%nat.
Proof.
  intros s. split; [apply browser_on|].
  apply (reset_empties_store (dates:=Iso.parse) s). apply browser_on.
Defined.

(** X10 on the phone whose engine refuses every statement. *)
Lemma native_passthrough_witness :
  let s := States.broken_phone in
  let h := {| hasTransaction := true |} in
  on_native s h
  ∧ hasTransaction h = true
  ∧ (executeTransaction (dates:=Iso.parse) countSQL [] "get stats" s).1
      = Failure (BackendError "disk I/O error")
  ∧ (executeTransaction (dates:=Iso.parse) countSQL [] "get stats" s).1
      = result_of (engine_run countSQL [] (engine s)).1
  ∧ engine (executeTransaction (dates:=Iso.parse) countSQL [] "get stats" s).2
      = (engine_run countSQL [] (engine s)).2
  ∧ db (executeTransaction (dates:=Iso.parse) countSQL [] "get stats" s).2
      = db s
  ∧ localStorage
      (executeTransaction (dates:=Iso.parse) countSQL [] "get stats" s).2
      = localStorage s
  ∧ issued (executeTransaction (dates:=Iso.parse) countSQL [] "get stats" s).2
      = issued s ++ [(countSQL, [])].
Proof.
  intros s h. split; [by split|]. split; [reflexivity|]. split; [reflexivity|].
  apply (native_passthrough (dates:=Iso.parse) countSQL [] "get stats" s h);
    [by split|reflexivity].
Defined.

(** X11 on the phone whose engine refuses every statement. *)
Lemma native_answers_reach_the_caller_witness :
  let s := States.broken_phone in
  let h := {| hasTransaction := true |} in
  let id := VString "1" in
  on_native s h
  ∧ hasTransaction h = true
  ∧ (deleteHike (dates:=Iso.parse) id s).1 = Rejected "disk I/O error"
  ∧ (∀ rows, (engine_run selectAllSQL [] (engine s)).1 = OnSuccess rows →
       (getAllHikes (dates:=Iso.parse) s).1 = Resolved rows)
  ∧ (∀ message, (engine_run deleteSQL [id] (engine s)).1 = OnError message →
       (deleteHike (dates:=Iso.parse) id s).1 = Rejected message)
  ∧ (∀ message,
       (engine_run deleteSQL [id] (engine s)).1 = OnTransactionError message →
       (deleteHike (dates:=Iso.parse) id s).1 = Rejected message).
Proof.
  intros s h id. split; [by split|]. split; [reflexivity|].
  split; [reflexivity|].
  apply (native_answers_reach_the_caller (dates:=Iso.parse) id s h);
    [by split|reflexivity].
Defined.

(** X12 on the phone whose SQLite module returns a handle without a
    [transaction] function, over a storage that holds [snowdon]. *)
Lemma rebind_to_fallback_witness :
  let s := States.newer_module in
  let h := {| hasTransaction := false |} in
  on_native s h
  ∧ hasTransaction h = false
  ∧ (executeTransaction (dates:=Iso.parse) countSQL [] "get stats" s).1
      = Success [CountRecord 1]
  ∧ (executeTransaction (dates:=Iso.parse) countSQL [] "get stats" s).1
      = result_of (executeSql (dates:=Iso.parse) countSQL []
                     (createMockDatabase (localStorage s), localStorage s)).1
  ∧ stored_rows
      (executeTransaction (dates:=Iso.parse) countSQL [] "get stats" s).2
      = readAll (executeSql (dates:=Iso.parse) countSQL []
                   (createMockDatabase (localStorage s), localStorage s)).2
  ∧ on_fallback
      (executeTransaction (dates:=Iso.parse) countSQL [] "get stats" s).2
  ∧ engine (executeTransaction (dates:=Iso.parse) countSQL [] "get stats" s).2
      = engine s.
Proof.
  intros s h. split; [by split|]. split; [reflexivity|]. split; [reflexivity|].
  apply (rebind_to_fallback (dates:=Iso.parse) countSQL [] "get stats" s h);
    [by split|reflexivity].
Defined.

(** X13 for the browser that holds two rows, reloaded in a browser and on a
    phone without SQLite. *)
Lemma rows_survive_reconstruction_witness :
  let s := States.browser [Sample.snowdon; Sample.benNevis] in
  let m := {| hasLocalStorage := true; memoryRows := [] |} in
  let rt := {| OS := "android"; SQLite := None |} in
  db s = Some (MockDatabase m)
  ∧ hasLocalStorage m = true
  ∧ is_Some (localStorage s)
  ∧ (OS rt = "web" ∨ openAttempt (SQLite rt) = None)
  ∧ stored_rows (construct (native:=Engines.quiet) rt (localStorage s) tt)
      = stored_rows s
  ∧ stored_rows (construct (native:=Engines.quiet) rt None tt) = [].
Proof.
  intros s m rt.
  assert (is_Some (localStorage s)) as Hls by (by eexists).
  split; [reflexivity|]. split; [reflexivity|]. split; [exact Hls|].
  split; [by right|].
  exact (rows_survive_reconstruction (native:=Engines.quiet) rt tt s m
           eq_refl eq_refl Hls (or_intror eq_refl)).
Defined.


(** * The hike form *)

Section form_validation.
Import Form.
Context {floats : FloatParser}.

Lemma record_spec data clk f v (acc : FieldErrors * bool) :
  (∀ key, (record data clk f v acc).1 key
          = if decide (key = f)
            then match validateField data clk f v with
                 | Some error => Some error
                 | None => acc.1 key
                 end
            else acc.1 key)
  ∧ (record data clk f v acc).2
      = acc.2 && bool_decide (validateField data clk f v = None).
Proof.
  unfold record. destruct (validateField data clk f v) as [error|]; simpl.
  - split; [done|]. by rewrite andb_false_r.
  - split; [intros key; by case_decide|]. by rewrite andb_true_r.
Qed.

(** The test [if (formData[field])] before an optional field is checked
    makes no difference: the empty text passes every optional check. *)
Lemma optional_empty data clk f :
  f ∈ optionalFields → validateField data clk f [] = None.
Proof.
  unfold optionalFields. rewrite !elem_of_cons, elem_of_nil.
  intros [->|[->|[->|[->|[]]]]]; reflexivity.
Qed.

Lemma guarded_record data clk f acc :
  f ∈ optionalFields →
  match valueOf data f with
  | [] => acc
  | _ => record data clk f (valueOf data f) acc
  end = record data clk f (valueOf data f) acc.
Proof.
  intros Hf. destruct (valueOf data f) eqn:Hv; [|done].
  unfold record. by rewrite optional_empty.
Qed.

Lemma foldl_record data clk fs (acc : FieldErrors * bool) :
  let r := foldl (λ acc f, record data clk f (valueOf data f) acc) acc fs in
  (∀ key, r.1 key
          = match (if bool_decide (key ∈ fs)
                   then validateField data clk key (valueOf data key)
                   else None) with
            | Some error => Some error
            | None => acc.1 key
            end)
  ∧ r.2 = acc.2
          && forallb (λ f, bool_decide
                             (validateField data clk f (valueOf data f) = None))
               fs.
Proof.
  revert acc. induction fs as [|f fs IH]; intros acc; simpl.
  { split; [done|]. by rewrite andb_true_r. }
  destruct (IH (record data clk f (valueOf data f) acc)) as [IH1 IH2].
  destruct (record_spec data clk f (valueOf data f) acc) as [Hr1 Hr2].
  split.
  - intros key. rewrite IH1, Hr1.
    destruct (decide (key = f)) as [->|Hne].
    + rewrite (bool_decide_eq_true_2 (f ∈ f :: fs)) by left.
      destruct (bool_decide (f ∈ fs)); by destruct (validateField data clk f _).
    + rewrite (bool_decide_ext (key ∈ f :: fs) (key ∈ fs)); [done|].
      rewrite elem_of_cons. split; [by intros [?|?]|by right].
  - rewrite IH2, Hr2. by rewrite andb_assoc.
Qed.

(** The loops of [validateForm] amount to one pass over all the keys. *)
Lemma validateForm_pass clk c :
  validateForm clk c
  = ((onePass (formData c) clk).2,
     {| formData := formData c;
        fieldErrors := (onePass (formData c) clk).1;
        touchedFields :=
          if (onePass (formData c) clk).2 then touchedFields c else λ _, true;
        showConfirmation := showConfirmation c |}).
Proof.
  unfold validateForm, onePass, allChecked, requiredFields.
  rewrite !foldl_app. unfold optionalFields. cbn [foldl].
  rewrite !guarded_record
    by (unfold optionalFields;
        repeat first [apply list_elem_of_here | apply list_elem_of_further]).
  change (record (formData c) clk Date []) with
    (record (formData c) clk Date (valueOf (formData c) Date)).
  by destruct (record (formData c) clk Companions _ _).
Qed.

Lemma elem_of_allChecked key : key ∈ allChecked.
Proof.
  unfold allChecked, requiredFields, optionalFields. simpl.
  destruct key;
    repeat first [apply list_elem_of_here | apply list_elem_of_further].
Qed.
End form_validation.

Section form_properties.
Import Form.
Context {floats : FloatParser}.

Lemma validateForm_true_iff clk c :
  (∀ key, fieldErrors (validateForm clk c).2 key
          = validateField (formData c) clk key (valueOf (formData c) key))
  ∧ ((validateForm clk c).1 = true
     ↔ ∀ key, validateField (formData c) clk key (valueOf (formData c) key)
              = None).
Proof.
  rewrite validateForm_pass. cbn [fst snd fieldErrors].
  destruct (foldl_record (formData c) clk allChecked (noErrors, true))
    as [Herrors Hvalid].
  fold (onePass (formData c) clk) in Herrors, Hvalid.
  split.
  - intros key. rewrite Herrors.
    rewrite bool_decide_eq_true_2 by apply elem_of_allChecked.
    by destruct (validateField (formData c) clk key _).
  - rewrite Hvalid. cbn [snd andb]. rewrite forallb_forall. split.
    + intros Hall key.
      eapply bool_decide_eq_true_1, Hall.
      apply list_elem_of_In, elem_of_allChecked.
    + intros Hall f _. by apply bool_decide_eq_true_2.
Qed.

(** X16: [validateForm] leaves under every key exactly what
    [validateField] says about the field (the test before the optional
    fields makes no difference); it answers true exactly when no key has a
    message; an invalid form gets every field touched, a valid one keeps
    its touched fields; and [handleSubmit] opens the confirmation exactly
    when the form is valid. *)
Theorem validateForm_verdict (clk : clock) (c : component) :
  (∀ key, fieldErrors (validateForm clk c).2 key
          = validateField (formData c) clk key (valueOf (formData c) key))
  ∧ ((validateForm clk c).1 = true
     ↔ ∀ key, fieldErrors (validateForm clk c).2 key = None)
  ∧ touchedFields (validateForm clk c).2
      = (if (validateForm clk c).1 then touchedFields c else λ _, true)
  ∧ formData (validateForm clk c).2 = formData c
  ∧ showConfirmation (handleSubmit clk c)
      = (validateForm clk c).1 || showConfirmation c.
Proof.
  destruct (validateForm_true_iff clk c) as [Herrors Hvalid].
  split; [done|]. split.
  { rewrite Hvalid. split; intros Hall key; [by rewrite Herrors|].
    by rewrite <-Herrors. }
  unfold handleSubmit. rewrite validateForm_pass.
  cbn [fst snd touchedFields formData showConfirmation].
  by destruct (onePass (formData c) clk).2.
Qed.

Lemma trim_nil : trim [] = [].
Proof. reflexivity. Qed.

Lemma blank_false v : blank v = false ↔ trim v ≠ [].
Proof.
  unfold blank. destruct v as [|c v]; [by rewrite trim_nil|].
  by destruct (trim (c :: v)).
Qed.

Lemma longer_false v n : longer v n = false ↔ (Datatypes.length v ≤ n)%nat.
Proof.
  unfold longer. destruct v as [|c v]; simpl; [split; [lia|done]|].
  rewrite Nat.ltb_ge. done.
Qed.

Lemma sized_none v (required short long : string) :
  (if blank v then Some required
   else if (Datatypes.length (trim v) <? 2)%nat then Some short
   else if (100 <? Datatypes.length (trim v))%nat then Some long
   else None) = None
  ↔ (2 ≤ Datatypes.length (trim v) ≤ 100)%nat.
Proof.
  destruct (blank v) eqn:Hblank.
  - split; [done|]. intros [Hlen _].
    assert (trim v = []) as Hnil.
    { destruct (trim v) eqn:Ht; [done|].
      assert (blank v = false) as Hf by (apply blank_false; by rewrite Ht).
      congruence. }
    rewrite Hnil in Hlen. simpl in Hlen. lia.
  - destruct (Nat.ltb_spec (Datatypes.length (trim v)) 2);
      [split; [done|lia]|].
    destruct (Nat.ltb_spec 100 (Datatypes.length (trim v)));
      split; first [done | lia].
Qed.

Lemma required_none v (required : string) :
  (if blank v then Some required else None) = None ↔ trim v ≠ [].
Proof.
  rewrite <-blank_false. by destruct (blank v).
Qed.

Lemma limited_none v n (message : string) :
  (if longer v n then Some message else None) = None
  ↔ (Datatypes.length v ≤ n)%nat.
Proof.
  rewrite <-longer_false. by destruct (longer v n).
Qed.

Lemma length_none data clk v :
  validateField data clk Length v = None
  ↔ trim v ≠ [] ∧ parseFloat v = UpTo1000 ∧ decimalShape v = true.
Proof.
  simpl. rewrite <-blank_false. destruct (blank v); [by split; [|intros []]|].
  destruct (parseFloat v); try (by split; [|intros (_ & ? & _)]).
  destruct (decimalShape v); simpl; split; try done. by intros (_ & _ & ?).
Qed.

Lemma date_none data clk v :
  validateField data clk Date v = None
  ↔ ∃ t, FormData.date data = Some t ∧ hundredYearsAgo clk ≤ t ≤ now clk.
Proof.
  simpl. destruct (FormData.date data) as [t|]; [|by split; [|intros (? & ? & _)]].
  destruct (Z.ltb_spec (now clk) t).
  { split; [done|]. intros (? & [= <-] & ?). lia. }
  destruct (Z.ltb_spec t (hundredYearsAgo clk)).
  { split; [done|]. intros (? & [= <-] & ?). lia. }
  split; [|done]. intros _. exists t. split; [done|lia].
Qed.

Lemma rating_none data clk v :
  validateField data clk Rating v = None
  ↔ v = [] ∨ ∃ n, parseInt v = Some n ∧ 1 ≤ n ≤ 5.
Proof.
  simpl. destruct v as [|c v]; [split; [by left|done]|].
  destruct (parseInt (c :: v)) as [n|].
  - destruct (Z.ltb_spec n 1); simpl.
    { split; [done|]. intros [?|(? & [= <-] & ?)]; [done|lia]. }
    destruct (Z.ltb_spec 5 n); simpl.
    { split; [done|]. intros [?|(? & [= <-] & ?)]; [done|lia]. }
    split; [|done]. intros _. right. exists n. split; [done|lia].
  - split; [done|]. by intros [?|(? & ? & _)].
Qed.

(** X17: [validateForm] lets through exactly the forms with a name and a
    location of 2 to 100 code units after trimming (100 included), a
    length that is not blank, reads as a number above 0 and up to 1000
    and has the decimal shape, a difficulty and a parking text that are
    not blank, a valid date between one hundred years ago and now, a
    description, weather and companions text of at most 1000, 50 and 100
    code units, and a rating that is empty or starts, for [parseInt], with
    a number from 1 to 5. *)
Theorem validateForm_accepts_exactly (clk : clock) (c : component) :
  (validateForm clk c).1 = true ↔ acceptable (formData c) clk.
Proof.
  destruct (validateForm_true_iff clk c) as [_ ->].
  unfold acceptable. split.
  - intros Hall.
    pose proof (Hall Name) as HName. pose proof (Hall Location) as HLocation.
    pose proof (Hall Length) as HLength.
    pose proof (Hall Difficulty) as HDifficulty.
    pose proof (Hall Parking) as HParking. pose proof (Hall Date) as HDate.
    pose proof (Hall Description) as HDescription.
    pose proof (Hall Weather) as HWeather. pose proof (Hall Rating) as HRating.
    pose proof (Hall Companions) as HCompanions.
    apply sized_none in HName, HLocation.
    apply length_none in HLength. apply required_none in HDifficulty, HParking.
    apply date_none in HDate. apply limited_none in HDescription, HWeather.
    apply rating_none in HRating. apply limited_none in HCompanions.
    done.
  - intros (HName & HLocation & HLength & HDifficulty & HParking & HDate
            & HDescription & HWeather & HRating & HCompanions) key.
    destruct key.
    + by apply sized_none.
    + by apply sized_none.
    + by apply date_none.
    + by apply required_none.
    + by apply length_none.
    + by apply required_none.
    + by apply limited_none.
    + by apply limited_none.
    + by apply rating_none.
    + by apply limited_none.
Qed.

Lemma digitValue_not_digit c : isDigit c = false → digitValue 10 c = None.
Proof.
  intros Hc. unfold digitValue. rewrite Hc.
  destruct ((97 <=? c) && (c <=? 122))%N eqn:Hlower.
  { apply andb_true_iff in Hlower as [?%N.leb_le ?%N.leb_le].
    destruct (Z.ltb_spec (Z.of_N c - 87) 10); [lia|done]. }
  destruct ((65 <=? c) && (c <=? 90))%N eqn:Hupper; [|done].
  apply andb_true_iff in Hupper as [?%N.leb_le ?%N.leb_le].
  destruct (Z.ltb_spec (Z.of_N c - 55) 10); [lia|done].
Qed.

(** X18: the rating test reads the text with [parseInt], so only its
    start counts: a text that starts with one of the digits 1 to 5,
    followed by anything that is not a digit, passes. *)
Theorem rating_reads_only_the_start
    (data : FormData.t) (clk : clock) (d : N) (tail : text) :
  (49 ≤ d ≤ 53)%N →
  match tail with c :: _ => isDigit c = false | [] => True end →
  validateField data clk Rating (d :: tail) = None.
Proof.
  intros Hd Htail. apply rating_none. right. exists (Z.of_N d - 48).
  split; [|lia].
  assert (d = 49 ∨ d = 50 ∨ d = 51 ∨ d = 52 ∨ d = 53)%N
    as [->|[->|[->|[->| ->]]]] by lia;
    unfold parseInt; simpl; destruct tail as [|c tail]; simpl; try done;
    by rewrite (digitValue_not_digit c Htail).
Qed.

Lemma skipDigits_digits ds s :
  Forall (λ c, isDigit c = true) ds → skipDigits (ds ++ s) = skipDigits s.
Proof. induction 1 as [|c ds Hc _ IH]; simpl; [done|]. by rewrite Hc. Qed.

Lemma skipDigits_split s :
  ∃ ds, Forall (λ c, isDigit c = true) ds
    ∧ s = ds ++ skipDigits s
    ∧ match skipDigits s with c :: _ => isDigit c = false | [] => True end.
Proof.
  induction s as [|c s (ds & Hds & Hs & Hrest)]; simpl.
  { by exists []. }
  destruct (isDigit c) eqn:Hc.
  - exists (c :: ds). split; [by constructor|].
    split; [simpl; congruence|done].
  - exists []. by repeat split.
Qed.

(** X19: the decimal test of the length accepts exactly the texts made of
    digits with at most one dot among them: no sign, no exponent, no
    blank. *)
Theorem decimalShape_accepts (value : text) :
  decimalShape value = true
  ↔ ∃ whole fraction,
      Forall (λ c, isDigit c = true) whole
      ∧ Forall (λ c, isDigit c = true) fraction
      ∧ (value = whole ∨ value = whole ++ 46%N :: fraction).
Proof.
  unfold decimalShape. split.
  - destruct (skipDigits_split value) as (whole & Hwhole & Hvalue & Hrest).
    destruct (skipDigits value) as [|c rest].
    { intros _. exists whole, []. split; [done|]. split; [done|].
      left. by rewrite Hvalue, app_nil_r. }
    destruct (N.eqb_spec c 46) as [->|Hc].
    + destruct (skipDigits_split rest) as (fraction & Hfraction & Hr & _).
      destruct (skipDigits rest); [|done]. intros _.
      exists whole, fraction. split; [done|]. split; [done|].
      right. by rewrite Hvalue, Hr, app_nil_r at 1.
    + simpl. by rewrite Hrest.
  - intros (whole & fraction & Hwhole & Hfraction & [->| ->]).
    + rewrite <-(app_nil_r whole), skipDigits_digits by done. done.
    + rewrite skipDigits_digits by done. simpl.
      rewrite <-(app_nil_r fraction), skipDigits_digits by done. done.
Qed.
End form_properties.

(** X18 for the text that reads: 4 stars. *)
Lemma rating_reads_only_the_start_witness :
  (49 ≤ 52 ≤ 53)%N
  ∧ Form.isDigit 32 = false
  ∧ Form.validateField (floats:=Form.plainDecimal) Form.snowdonForm
      Form.may2024 Form.Rating (Form.ofString "4 stars") = None.
Proof.
  split; [lia|]. split; [reflexivity|].
  apply (rating_reads_only_the_start (floats:=Form.plainDecimal)
           Form.snowdonForm Form.may2024 52 (Form.ofString " stars"));
    [lia|reflexivity].
Defined.

(** The sample form passes; with a name of one letter it does not, and the
    message is the one for a short name. *)
Example form_scenario :
  let c := {| Form.formData := Form.snowdonForm;
              Form.fieldErrors := Form.noErrors;
              Form.touchedFields := λ _, false;
              Form.showConfirmation := false |} in
  let short :=
    {| Form.formData :=
         {| Form.FormData.name := Form.ofString "S";
            Form.FormData.location := Form.ofString "Wales";
            Form.FormData.date := Some 1714521600000;
            Form.FormData.parking := Form.ofString "Yes";
            Form.FormData.length := Form.ofString "8.5";
            Form.FormData.difficulty := Form.ofString "Hard";
            Form.FormData.description := [];
            Form.FormData.weather := [];
            Form.FormData.rating := [];
            Form.FormData.companions := [] |};
       Form.fieldErrors := Form.noErrors;
       Form.touchedFields := λ _, false;
       Form.showConfirmation := false |} in
  Form.showConfirmation
    (Form.handleSubmit (floats:=Form.plainDecimal) Form.may2024 c) = true
  ∧ Form.showConfirmation
      (Form.handleSubmit (floats:=Form.plainDecimal) Form.may2024 short) = false
  ∧ Form.fieldErrors
      (Form.handleSubmit (floats:=Form.plainDecimal) Form.may2024 short)
      Form.Name
      = Some "Hike name must be at least 2 characters".
Proof. repeat split; reflexivity. Qed.
